(** * Level-crossing alert bot: a shallow embedding of [main.py]

    The development follows the layout of the script:
    - [PyNum]: the Python number operations the script relies on
      ([/] on floats, [round], [int * float], [int], [float]), on IEEE
      binary64 values represented by [spec_float];
    - [Json]: the values produced by [r.json()] and the dictionary and
      truthiness operations applied to them;
    - [Bot]: [send_telegram], [fetch_quotes], [process_tick] and the body
      of the [while True] loop of [main_bot], in a state-and-exception
      monad over the process state (the [last_level_alert] dictionary, the
      console and the two remote services).

    Message texts are kept symbolic (constructors of [text]): how a float
    or the clock is printed plays no role in any decision of the script. *)

From Stdlib Require Import ZArith QArith Qround Qabs Lia List.
From Stdlib Require Import Floats.SpecFloat.
From stdpp Require Import gmap strings.

Close Scope Q_scope.
Local Open Scope Z_scope.

(** ** Exceptions and results *)

Inductive exn : Type :=
  | ZeroDivisionError
  | OverflowError
  | ValueError
  | TypeError
  | AttributeError
  | RequestException.

Inductive res (A : Type) : Type :=
  | Ok (a : A)
  | Raise (e : exn).
Arguments Ok {A} a.
Arguments Raise {A} e.

#[global] Instance res_ret : MRet res := fun _ a => Ok a.

#[global] Instance res_bind : MBind res := fun _ _ k r =>
  match r with
  | Ok a => k a
  | Raise e => Raise e
  end.

(** ** Python numbers *)

Module PyNum.

(** CPython's [float] is IEEE binary64. *)
Definition prec : Z := 53.
Definition emax : Z := 1024.

Abbreviation float := spec_float.

Definition is_zero (x : float) : bool :=
  match x with S754_zero _ => true | _ => false end.

Definition is_finite (x : float) : bool :=
  match x with S754_zero _ | S754_finite _ _ _ => true | _ => false end.

(** [float(n)] for an [int]: correctly rounded, [OverflowError] when the
    integer is too large for a double. *)
Definition float_of_int (n : Z) : res float :=
  match binary_normalize prec emax n 0 false with
  | S754_infinity _ => Raise OverflowError
  | f => Ok f
  end.

(** [a / b] on floats: a zero divisor raises, whatever the dividend. *)
Definition truediv (a b : float) : res float :=
  if is_zero b then Raise ZeroDivisionError else Ok (SFdiv prec emax a b).

(** Nearest integer to [m / 2^k], ties to the even one. *)
Definition round_half_even (m : positive) (k : positive) : Z :=
  let d := Z.pow_pos 2 k in
  let q := Z.pos m / d in
  let r := Z.pos m mod d in
  match 2 * r ?= d with
  | Lt => q
  | Gt => q + 1
  | Eq => if Z.even q then q else q + 1
  end.

(** One-argument [round(x)] on a float: an [int], ties to even. *)
Definition round (x : float) : res Z :=
  match x with
  | S754_nan => Raise ValueError
  | S754_infinity _ => Raise OverflowError
  | S754_zero _ => Ok 0
  | S754_finite s m (Z.neg k) => Ok (cond_Zopp s (round_half_even m k))
  | S754_finite s m e => Ok (cond_Zopp s (Z.pos m * 2 ^ e))
  end.

(** [n * x] with [n] an [int]: the integer is converted first. *)
Definition mul_int_float (n : Z) (x : float) : res float :=
  f ← float_of_int n; Ok (SFmul prec emax f x).

(** [int(x)] on a float: truncation toward zero. *)
Definition int (x : float) : res Z :=
  match x with
  | S754_nan => Raise ValueError
  | S754_infinity _ => Raise OverflowError
  | S754_zero _ => Ok 0
  | S754_finite s m (Z.neg k) => Ok (cond_Zopp s (Z.pos m / Z.pow_pos 2 k))
  | S754_finite s m e => Ok (cond_Zopp s (Z.pos m * 2 ^ e))
  end.

(** The exact rational value of a finite float (0 for the others). *)
Definition to_Q (x : float) : Q :=
  match x with
  | S754_finite s m (Z.neg k) => Qmake (cond_Zopp s (Z.pos m)) (Pos.pow 2 k)
  | S754_finite s m e => inject_Z (cond_Zopp s (Z.pos m * 2 ^ e))
  | _ => 0%Q
  end.

(** Truncation of a rational toward zero. *)
Definition Qtrunc (v : Q) : Z :=
  if Qle_bool 0 v then Qfloor v else Qceiling v.

(** [n] is an integer nearest to [v], the even one when [v] lies halfway
    between two integers. *)
Definition nearest_even (v : Q) (n : Z) : Prop :=
  (Qabs (inject_Z n - v) <= 1 # 2)%Q /\
  ((Qabs (inject_Z n - v) == 1 # 2)%Q -> Z.even n = true).

End PyNum.

(** ** Values decoded from a JSON body *)

Module Json.

Import PyNum.

(** What [r.json()] returns: [None], [bool], [int], [float], [str],
    [list] and [dict] (the members of an object in order, looked up by
    key; a dict has each key once). *)
#[local] Set Warnings "-register-all".
Inductive value : Type :=
  | JNull
  | JBool (b : bool)
  | JInt (n : Z)
  | JFloat (x : float)
  | JStr (s : string)
  | JArr (items : list value)
  | JObj (members : list (string * value)).

(** Truth value of an object, as tested by [not q] and [a or b]. *)
Definition truthy (v : value) : bool :=
  match v with
  | JNull => false
  | JBool b => b
  | JInt n => negb (n =? 0)
  | JFloat x => negb (is_zero x)
  | JStr s => negb (bool_decide (s = ""%string))
  | JArr items => match items with [] => false | _ => true end
  | JObj members => match members with [] => false | _ => true end
  end.

Fixpoint assoc (k : string) (members : list (string * value)) : option value :=
  match members with
  | [] => None
  | (k', v) :: rest => if bool_decide (k' = k) then Some v else assoc k rest
  end.

(** [d.get(k, dflt)]: only a [dict] has the method. *)
Definition get (d : value) (k : string) (dflt : value) : res value :=
  match d with
  | JObj members => Ok (default dflt (assoc k members))
  | _ => Raise AttributeError
  end.

Fixpoint chars (s : string) : list value :=
  match s with
  | EmptyString => []
  | String c rest => JStr (String c EmptyString) :: chars rest
  end.

(** The elements a [for x in v] visits: the items of a list, the keys of
    a dict, the characters of a str; nothing else is iterable. *)
Definition iterate (v : value) : res (list value) :=
  match v with
  | JArr items => Ok items
  | JObj members => Ok (map (fun kv => JStr (fst kv)) members)
  | JStr s => Ok (chars s)
  | _ => Raise TypeError
  end.

(** A running total of [sum]: an [int] until a float is added. *)
Inductive num : Type :=
  | NInt (n : Z)
  | NFloat (x : float).

(** [acc + v]: numbers and bools add, any other operand is a
    [TypeError]; an [int] meeting a float is converted first. Float
    additions are IEEE additions taken left to right. *)
Definition add (acc : num) (v : value) : res num :=
  match v with
  | JInt _ | JBool _ | JFloat _ =>
      let operand :=
        match v with
        | JInt n => NInt n
        | JBool b => NInt (if b then 1 else 0)
        | JFloat x => NFloat x
        | _ => NInt 0
        end in
      match acc, operand with
      | NInt a, NInt b => Ok (NInt (a + b))
      | NInt a, NFloat y => x ← float_of_int a; Ok (NFloat (SFadd prec emax x y))
      | NFloat x, NInt b => y ← float_of_int b; Ok (NFloat (SFadd prec emax x y))
      | NFloat x, NFloat y => Ok (NFloat (SFadd prec emax x y))
      end
  | _ => Raise TypeError
  end.

(** [sum(x.get("quantity", 0) for x in items)], element by element. *)
Fixpoint sum_quantities (acc : num) (items : list value) : res num :=
  match items with
  | [] => Ok acc
  | x :: rest =>
      qty ← get x "quantity" (JInt 0);
      acc' ← add acc qty;
      sum_quantities acc' rest
  end.

(** [float(n)] on the total. *)
Definition float_of_num (n : num) : res float :=
  match n with
  | NInt a => float_of_int a
  | NFloat x => Ok x
  end.

Section Float.

(** The decimal reader behind [float(str)]; [None] when the text is
    not a number. *)
Variable float_of_str : string -> option float.

(** [float(v)]. *)
Definition to_float (v : value) : res float :=
  match v with
  | JInt n => float_of_int n
  | JBool b => float_of_int (if b then 1 else 0)
  | JFloat x => Ok x
  | JStr s => match float_of_str s with Some x => Ok x | None => Raise ValueError end
  | JNull | JArr _ | JObj _ => Raise TypeError
  end.

End Float.

Definition is_None (v : value) : bool :=
  match v with JNull => true | _ => false end.

(** [v != "success"]. *)
Definition differs_from_str (v : value) (s : string) : bool :=
  match v with
  | JStr s' => negb (bool_decide (s' = s))
  | _ => true
  end.

End Json.

(** ** The bot *)

Module Bot.

Import PyNum Json.

(** *** Configuration, read once from the process environment *)

Record config : Type := {
  UPSTOX_ACCESS_TOKEN : option string;
  TELEGRAM_BOT_TOKEN : option string;
  TELEGRAM_CHAT_ID : option string;
  (** the stripped, non-empty entries of [INSTRUMENT_KEYS] *)
  keys_list : list string;
  LEVEL_STEP_POINTS : float
}.

(** [not v] for a variable read by [os.getenv]: unset or empty. *)
Definition unset (v : option string) : bool :=
  match v with
  | None => true
  | Some s => bool_decide (s = ""%string)
  end.

(** *** Texts printed or sent *)

Inductive text : Type :=
  | TxtStarted
  | TxtTelegramSkipped (msg : text)
  | TxtTelegramError
  | TxtTokenNotSet
  | TxtRequestError
  | TxtUnauthorized
  | TxtTokenInvalid
  | TxtJsonDecodeError
  | TxtUpstoxError (data : value)
  | TxtAlert (symbol : string) (ltp : float) (level : Z) (buy_volume : float)
  | TxtLoopError (e : exn).

(** *** The outside world *)

(** What one [requests.get] can come back with: an exception, or a
    response with its status code and, when the body decodes, its JSON. *)
Inductive http_outcome : Type :=
  | ConnectionFailed
  | Response (status_code : Z) (json : option value).

Inductive event : Type :=
  | Print (t : text)
  | HttpGet (keys : string)
  | HttpPost (msg : text)
  | Sleep.

(** The process state: the module-level dictionary, what the process has
    done so far (oldest first), and what the two remote services will
    answer to the requests still to come (an exhausted list is a service
    that cannot be reached). *)
Record world : Type := {
  last_level_alert : gmap string Z;
  trace : list event;
  upstox : list http_outcome;
  telegram : list bool
}.

Definition M (A : Type) : Type := world -> res A * world.

#[global] Instance M_ret : MRet M := fun _ a w => (Ok a, w).

#[global] Instance M_bind : MBind M := fun _ _ k m w =>
  match m w with
  | (Ok a, w') => k a w'
  | (Raise e, w') => (Raise e, w')
  end.

Definition lift {A} (r : res A) : M A := fun w => (r, w).

(** [try: x = body  except Exception as e: handler(e)], followed by
    [rest] when the body went through; a handler that ends in [return]
    gives the result of the whole function. *)
Definition try_except {A B} (body : M A) (handler : exn -> M B) (rest : A -> M B)
  : M B := fun w =>
  match body w with
  | (Ok a, w') => rest a w'
  | (Raise e, w') => handler e w'
  end.

Definition emit (e : event) : M unit := fun w =>
  (Ok tt, {| last_level_alert := last_level_alert w;
             trace := trace w ++ [e];
             upstox := upstox w;
             telegram := telegram w |}).

Definition print (t : text) : M unit := emit (Print t).

Definition requests_post (msg : text) : M unit := fun w =>
  let w' := {| last_level_alert := last_level_alert w;
               trace := trace w ++ [HttpPost msg];
               upstox := upstox w;
               telegram := tail (telegram w) |} in
  match telegram w with
  | true :: _ => (Ok tt, w')
  | _ => (Raise RequestException, w')
  end.

Definition requests_get (keys : string) : M http_outcome := fun w =>
  let w' := {| last_level_alert := last_level_alert w;
               trace := trace w ++ [HttpGet keys];
               upstox := tail (upstox w);
               telegram := telegram w |} in
  match upstox w with
  | ConnectionFailed :: _ | [] => (Raise RequestException, w')
  | r :: _ => (Ok r, w')
  end.

Definition get_level (symbol : string) : M (option Z) := fun w =>
  (Ok (last_level_alert w !! symbol), w).

Definition set_level (symbol : string) (level : Z) : M unit := fun w =>
  (Ok tt, {| last_level_alert := <[symbol := level]> (last_level_alert w);
             trace := trace w;
             upstox := upstox w;
             telegram := telegram w |}).

Fixpoint for_each {A} (l : list A) (body : A -> M unit) : M unit :=
  match l with
  | [] => mret tt
  | x :: rest => body x;; for_each rest body
  end.

Section Program.

Variable cfg : config.
Variable float_of_str : string -> option float.

(** *** [send_telegram] *)
Definition send_telegram (msg : text) : M unit :=
  if unset (TELEGRAM_BOT_TOKEN cfg) || unset (TELEGRAM_CHAT_ID cfg)
  then print (TxtTelegramSkipped msg)
  else try_except (requests_post msg) (fun _ => print TxtTelegramError) mret.

(** *** [fetch_quotes] *)
Definition fetch_quotes (keys : string) : M value :=
  if unset (UPSTOX_ACCESS_TOKEN cfg)
  then print TxtTokenNotSet;; mret (JObj [])
  else
    try_except (requests_get keys)
      (fun _ => print TxtRequestError;; mret (JObj []))
      (fun r =>
         match r with
         | ConnectionFailed => mret (JObj [])
         | Response status_code json =>
             if status_code =? 401
             then print TxtUnauthorized;;
                  send_telegram TxtTokenInvalid;;
                  mret (JObj [])
             else
               match json with
               | None => print TxtJsonDecodeError;; mret (JObj [])
               | Some data =>
                   status ← lift (get data "status" JNull);
                   if differs_from_str status "success"
                   then print (TxtUpstoxError data);; mret (JObj [])
                   else lift (get data "data" (JObj []))
               end
         end).

(** *** [process_tick] *)

(** [round(ltp / LEVEL_STEP_POINTS) * LEVEL_STEP_POINTS] *)
Definition grid_value (ltp : float) : res float :=
  q ← truediv ltp (LEVEL_STEP_POINTS cfg);
  n ← round q;
  mul_int_float n (LEVEL_STEP_POINTS cfg).

(** [int(round(ltp / LEVEL_STEP_POINTS) * LEVEL_STEP_POINTS)] *)
Definition level_of (ltp : float) : res Z :=
  g ← grid_value ltp;
  int g.

Definition process_tick (symbol : string) (ltp buy_volume : float) : M unit :=
  level ← lift (level_of ltp);
  prev_level ← get_level symbol;
  if bool_decide (prev_level ≠ Some level)
  then
    set_level symbol level;;
    let msg := TxtAlert symbol ltp level buy_volume in
    print msg;;
    send_telegram msg
  else mret tt.

(** *** [main_bot] *)

(** [q.get("last_price") or q.get("ltp")] *)
Definition quote_ltp (q : value) : res value :=
  last_price ← get q "last_price" JNull;
  if truthy last_price then Ok last_price else get q "ltp" JNull.

(** [depth], [buy_side] and [buy_qty] of a quote. *)
Definition quote_buy_qty (q : value) : res num :=
  depth ← get q "depth" (JObj []);
  buy_side ← get depth "buy" (JArr []);
  entries ← iterate buy_side;
  sum_quantities (NInt 0) entries.

(** The body of [for k in keys_list]. *)
Definition process_symbol (quotes : value) (k : string) : M unit :=
  q ← lift (get quotes k JNull);
  if negb (truthy q) then mret tt
  else
    ltp ← lift (quote_ltp q);
    buy_qty ← lift (quote_buy_qty q);
    if is_None ltp then mret tt
    else
      price ← lift (to_float float_of_str ltp);
      volume ← lift (float_of_num buy_qty);
      process_tick k price volume.

Definition joined_keys : string := String.concat "," (keys_list cfg).

(** One iteration of [while True]. *)
Definition poll_cycle : M unit :=
  try_except
    (quotes ← fetch_quotes joined_keys;
     for_each (keys_list cfg) (process_symbol quotes))
    (fun e => print (TxtLoopError e))
    mret;;
  emit Sleep.

(** The first [n] iterations of the loop. *)
Fixpoint poll_cycles (n : nat) : M unit :=
  match n with
  | O => mret tt
  | S n' => poll_cycle;; poll_cycles n'
  end.

(** [main_bot], cut after [n] iterations of its loop. *)
Definition main_bot (n : nat) : M unit :=
  print TxtStarted;;
  send_telegram TxtStarted;;
  poll_cycles n.

End Program.

(** *** Observations on a run *)

(** The state [w] after the process has done [evs] more, and nothing else. *)
Definition logged (evs : list event) (w : world) : world :=
  {| last_level_alert := last_level_alert w;
     trace := trace w ++ evs;
     upstox := upstox w;
     telegram := telegram w |}.

(** What the process did between two states of one run. *)
Definition events_since (w w' : world) : list event :=
  drop (length (trace w)) (trace w').

(** The message of a call to [send_telegram]: every call leaves exactly
    one of these two events, whether the Notifier is configured or not. *)
Definition notification (e : event) : option text :=
  match e with
  | HttpPost msg => Some msg
  | Print (TxtTelegramSkipped msg) => Some msg
  | _ => None
  end.

(** The messages handed to [send_telegram], in order. *)
Definition notifications (evs : list event) : list text :=
  omap notification evs.

(** The state after a call, whatever its outcome, and the messages the
    call handed to [send_telegram]. *)
Definition after {A} (m : M A) (w : world) : world := snd (m w).

Definition notified {A} (m : M A) (w : world) : list text :=
  notifications (events_since w (after m w)).

Definition is_token_invalid (t : text) : bool :=
  match t with TxtTokenInvalid => true | _ => false end.

Definition is_request (e : event) : bool :=
  match e with HttpGet _ | HttpPost _ => true | _ => false end.

(** The levels reported by the alerts among some notifications. *)
Definition alert_level (t : text) : option (string * Z) :=
  match t with
  | TxtAlert symbol _ level _ => Some (symbol, level)
  | _ => None
  end.

Definition alerts (evs : list event) : list (string * Z) :=
  omap alert_level (notifications evs).

(** The level of the latest alert for [symbol], if there was one. *)
Definition last_alert (symbol : string) (evs : list event) : option Z :=
  last (omap (fun a : string * Z =>
                if bool_decide (a.1 = symbol) then Some a.2 else None)
             (alerts evs)).

(** The level map holds, for every symbol, the level of its latest alert. *)
Definition consistent (w : world) : Prop :=
  forall symbol, last_level_alert w !! symbol = last_alert symbol (trace w).

(** A computation that leaves the level map alone and alerts nobody. *)
Definition quiet {A} (m : M A) : Prop :=
  forall w, last_level_alert (after m w) = last_level_alert w /\
            exists evs, trace (after m w) = trace w ++ evs /\ alerts evs = [].

Definition keeps_consistent {A} (m : M A) : Prop :=
  forall w, consistent w -> consistent (after m w).

End Bot.

(** ** Concrete configurations and inputs used in the examples *)

Module Examples.

Import PyNum Json Bot.

(** The double [m * 2^e]. *)
Definition dyadic (m e : Z) : float := binary_normalize prec emax m e false.

Definition half : float := dyadic 1 (-1).
Definition quarter : float := dyadic 1 (-2).
Definition one_and_half : float := dyadic 3 (-1).

Definition no_parser (_ : string) : option float := None.

(** Every credential set, two symbols, the given grid step. *)
Definition cfg_step (step : float) : config :=
  {| UPSTOX_ACCESS_TOKEN := Some "token"%string;
     TELEGRAM_BOT_TOKEN := Some "bot"%string;
     TELEGRAM_CHAT_ID := Some "chat"%string;
     keys_list := ["A"; "B"]%string;
     LEVEL_STEP_POINTS := step |}.

(** The default step, [float("50")]. *)
Definition cfg50 : config := cfg_step (dyadic 50 0).

(** No credential at all. *)
Definition cfg_bare : config :=
  {| UPSTOX_ACCESS_TOKEN := None;
     TELEGRAM_BOT_TOKEN := None;
     TELEGRAM_CHAT_ID := None;
     keys_list := ["A"; "B"]%string;
     LEVEL_STEP_POINTS := dyadic 50 0 |}.

(** A fresh process talking to services that answer as listed. *)
Definition fresh (answers : list http_outcome) (posts : list bool) : world :=
  {| last_level_alert := ∅; trace := []; upstox := answers; telegram := posts |}.

Definition success (data : value) : http_outcome :=
  Response 200 (Some (JObj [("status", JStr "success"); ("data", data)]%string)).

(** Symbol A carries a depth entry whose quantity is a string; symbol B
    is a clean quote at 100. *)
Definition quotes_bad_depth : value :=
  JObj [("A", JObj [("last_price", JInt 100);
                    ("depth", JObj [("buy", JArr [JObj [("quantity", JStr "many")]])])]);
        ("B", JObj [("last_price", JInt 100)])]%string.

(** The alerts of each call when one symbol is fed a list of prices. *)
Fixpoint feed (cfg : config) (symbol : string) (prices : list float) (w : world)
  : list (list (string * Z)) :=
  match prices with
  | [] => []
  | ltp :: rest =>
      let call := process_tick cfg symbol ltp (S754_zero false) in
      omap alert_level (notified call w) :: feed cfg symbol rest (after call w)
  end.

(** Both price fields present and zero. *)
Definition quote_zero : value :=
  JObj [("last_price", JInt 0); ("ltp", JInt 0)]%string.

End Examples.

(** ** The configured symbols *)

Module Startup.

(** A [str] is read as the sequence of its code points, here below 256.
    [isspace]: the characters [str.strip] removes. *)
Definition isspace (c : Ascii.ascii) : bool :=
  let n := Ascii.N_of_ascii c in
  ((9 <=? n) && (n <=? 13) || (28 <=? n) && (n <=? 32) || (n =? 133) || (n =? 160))%N.

Fixpoint lstrip (s : string) : string :=
  match s with
  | EmptyString => EmptyString
  | String c rest => if isspace c then lstrip rest else s
  end.

Fixpoint rstrip (s : string) : string :=
  match s with
  | EmptyString => EmptyString
  | String c rest =>
      match rstrip rest with
      | EmptyString => if isspace c then EmptyString else String c EmptyString
      | kept => String c kept
      end
  end.

(** [s.strip()] *)
Definition strip (s : string) : string := rstrip (lstrip s).

(** [s.split(sep)] for a one-character separator: one piece more than
    there are separators, empty pieces included. *)
Fixpoint split (sep : Ascii.ascii) (s : string) : list string :=
  match s with
  | EmptyString => [EmptyString]
  | String c rest =>
      if bool_decide (c = sep) then EmptyString :: split sep rest
      else match split sep rest with
           | piece :: pieces => String c piece :: pieces
           | [] => [String c EmptyString]
           end
  end.

(** The character of the string [","]. *)
Definition comma : Ascii.ascii :=
  match ","%string with
  | String c _ => c
  | EmptyString => Ascii.zero
  end.

(** [[k.strip() for k in INSTRUMENT_KEYS.split(",") if k.strip()]] *)
Definition parse_keys (instrument_keys : string) : list string :=
  filter (fun k => k ≠ EmptyString) (strip <$> split comma instrument_keys).

(** The characters of a string. *)
Definition chars_of (s : string) : list Ascii.ascii := String.list_ascii_of_string s.

(** A key as [parse_keys] produces them. *)
Definition clean (k : string) : Prop :=
  k ≠ EmptyString /\ strip k = k /\ comma ∉ chars_of k.

End Startup.

(** ** The loop with its sleep *)

Module Loop.

Import PyNum Json Bot.

Section Timed.

Variable cfg : config.
Variable float_of_str : string -> option float.

(** What [time.sleep] does with a duration: it returns, or raises. *)
Variable time_sleep : float -> res unit.
Variable POLL_INTERVAL_SEC : float.

(** The [try] statement of the loop. *)
Definition poll_body : M unit :=
  try_except
    (quotes ← fetch_quotes cfg (joined_keys cfg);
     for_each (keys_list cfg) (process_symbol cfg float_of_str quotes))
    (fun e => print (TxtLoopError e))
    mret.

(** [time.sleep(POLL_INTERVAL_SEC)], after the [try] statement. *)
Definition sleep : M unit :=
  lift (time_sleep POLL_INTERVAL_SEC);; emit Sleep.

(** The first [n] iterations of [while True]. *)
Fixpoint loop (n : nat) : M unit :=
  match n with
  | O => mret tt
  | S n' => poll_body;; sleep;; loop n'
  end.

Definition main_bot_timed (n : nat) : M unit :=
  print TxtStarted;;
  send_telegram cfg TxtStarted;;
  loop n.

End Timed.

End Loop.

(** ** What a run leaves alone *)

Module Frame.

Import PyNum Json Bot.

(** Every run of [m] relates the state before to the state after. *)
Definition stable (R : relation world) {A} (m : M A) : Prop :=
  forall w, R w (after m w).

(** The requests of a trace. *)
Definition gets (evs : list event) : list string :=
  omap (fun e => match e with HttpGet keys => Some keys | _ => None end) evs.

Definition posts (evs : list event) : list text :=
  omap (fun e => match e with HttpPost msg => Some msg | _ => None end) evs.

(** The run goes on from the trace so far, and what it adds satisfies [P]. *)
Definition adds (P : list event -> Prop) (w w' : world) : Prop :=
  exists evs, trace w' = trace w ++ evs /\ P evs.

Definition no_gets (evs : list event) : Prop := gets evs = [].

Definition no_posts (evs : list event) : Prop := posts evs = [].

(** The alerts among the events are for the given symbols only. *)
Definition alerts_within (symbols : list string) (evs : list event) : Prop :=
  Forall (fun a : string * Z => a.1 ∈ symbols) (alerts evs).

(** Entries are kept, and new ones are for the given symbols only. *)
Definition levels_within (symbols : list string) (w w' : world) : Prop :=
  dom (last_level_alert w) ⊆ dom (last_level_alert w') /\
  dom (last_level_alert w') ⊆ dom (last_level_alert w) ∪ list_to_set symbols.

(** The state once a request for [keys] has been sent and its answer
    taken. *)
Definition requested (keys : string) (w : world) : world :=
  {| last_level_alert := last_level_alert w;
     trace := trace w ++ [HttpGet keys];
     upstox := tail (upstox w);
     telegram := telegram w |}.

(** The state once a message has been posted and its answer taken. *)
Definition posted (msg : text) (w : world) : world :=
  {| last_level_alert := last_level_alert w;
     trace := trace w ++ [HttpPost msg];
     upstox := upstox w;
     telegram := tail (telegram w) |}.

End Frame.

(** ** One batch of quotes *)

Module Batch.

Import PyNum Json Bot.

Section Pure.

Variable cfg : config.
Variable float_of_str : string -> option float.

(** What the loop body reads from the batch for symbol [k], before any
    effect: nothing to do, or the arguments of [process_tick]. *)
Definition symbol_tick (quotes : value) (k : string) : res (option (float * float)) :=
  q ← get quotes k JNull;
  if negb (truthy q) then Ok None
  else
    ltp ← quote_ltp q;
    buy_qty ← quote_buy_qty q;
    if is_None ltp then Ok None
    else
      price ← to_float float_of_str ltp;
      volume ← float_of_num buy_qty;
      Ok (Some (price, volume)).

(** The level the batch gives symbol [k], when it gives one. *)
Definition symbol_level (quotes : value) (k : string) : option Z :=
  match symbol_tick quotes k with
  | Ok (Some (price, _)) =>
      match level_of cfg price with Ok level => Some level | Raise _ => None end
  | _ => None
  end.

(** The map already holds the level the batch gives symbol [k]. *)
Definition settled (quotes : value) (k : string) (w : world) : Prop :=
  match symbol_level quotes k with
  | Some level => last_level_alert w !! k = Some level
  | None => True
  end.

(** How the loop body ends for symbol [k]: the exceptions it can raise come
    from reading the batch and from computing the level. *)
Definition symbol_result (quotes : value) (k : string) : res unit :=
  match symbol_tick quotes k with
  | Raise e => Raise e
  | Ok None => Ok tt
  | Ok (Some (price, _)) =>
      match level_of cfg price with Ok _ => Ok tt | Raise e => Raise e end
  end.

(** The symbols the [for] loop gets to: all of them, or those up to the
    first one that raises. *)
Fixpoint evaluated (quotes : value) (keys : list string) : list string :=
  match keys with
  | [] => []
  | k :: rest =>
      match symbol_result quotes k with
      | Ok _ => k :: evaluated quotes rest
      | Raise _ => [k]
      end
  end.

Fixpoint batch_result (quotes : value) (keys : list string) : res unit :=
  match keys with
  | [] => Ok tt
  | k :: rest =>
      match symbol_result quotes k with
      | Ok _ => batch_result quotes rest
      | Raise e => Raise e
      end
  end.

End Pure.

End Batch.

(** * Properties *)

Import PyNum Json Bot.

(** ** The constants of the examples *)

Lemma example_values :
  (to_Q (Examples.dyadic 24 0) == 24)%Q /\
  (to_Q (Examples.dyadic 76 0) == 76)%Q /\
  (to_Q (Examples.dyadic 77 0) == 77)%Q /\
  (to_Q (Examples.dyadic 50 0) == 50)%Q /\
  (to_Q Examples.quarter == 1 # 4)%Q /\
  (to_Q Examples.half == 1 # 2)%Q /\
  (to_Q Examples.one_and_half == 3 # 2)%Q /\
  valid_binary prec emax (Examples.dyadic 24 0) = true /\
  valid_binary prec emax (Examples.dyadic 76 0) = true /\
  valid_binary prec emax (Examples.dyadic 77 0) = true /\
  valid_binary prec emax (Examples.dyadic 50 0) = true /\
  valid_binary prec emax Examples.quarter = true /\
  valid_binary prec emax Examples.half = true /\
  valid_binary prec emax Examples.one_and_half = true.
Proof. vm_compute. repeat split. Qed.

(** ** Running the monad *)

Lemma events_since_app (w w' : world) (evs : list event) :
  trace w' = trace w ++ evs -> events_since w w' = evs.
Proof.
  intros E. unfold events_since. rewrite E. apply drop_app_length.
Qed.

Lemma events_since_refl (w : world) : events_since w w = [].
Proof. apply events_since_app. by rewrite app_nil_r. Qed.

Lemma notifications_app (l1 l2 : list event) :
  notifications (l1 ++ l2) = notifications l1 ++ notifications l2.
Proof. unfold notifications. apply omap_app. Qed.

(** [send_telegram] never raises; it touches neither the level map nor the
    Quote Source and leaves exactly one notification, its message. *)
Lemma send_telegram_run (cfg : config) (msg : text) (w : world) :
  exists w' evs,
    send_telegram cfg msg w = (Ok tt, w') /\
    last_level_alert w' = last_level_alert w /\
    upstox w' = upstox w /\
    trace w' = trace w ++ evs /\
    notifications evs = [msg].
Proof.
  unfold send_telegram.
  destruct (unset (TELEGRAM_BOT_TOKEN cfg) || unset (TELEGRAM_CHAT_ID cfg)).
  - eexists _, [Print (TxtTelegramSkipped msg)]. repeat split.
  - unfold try_except, requests_post.
    destruct (telegram w) as [|[] ?]; simpl.
    + eexists _, [HttpPost msg; Print TxtTelegramError]. repeat split.
      simpl. by rewrite <- app_assoc.
    + eexists _, [HttpPost msg]. repeat split.
    + eexists _, [HttpPost msg; Print TxtTelegramError]. repeat split.
      simpl. by rewrite <- app_assoc.
Qed.

(** [process_tick], one case per path through its body. *)
Lemma process_tick_run (cfg : config) (symbol : string) (ltp bv : float) (w : world) :
  process_tick cfg symbol ltp bv w =
  match level_of cfg ltp with
  | Raise e => (Raise e, w)
  | Ok level =>
      if bool_decide (last_level_alert w !! symbol ≠ Some level)
      then send_telegram cfg (TxtAlert symbol ltp level bv)
             {| last_level_alert := <[symbol := level]> (last_level_alert w);
                trace := trace w ++ [Print (TxtAlert symbol ltp level bv)];
                upstox := upstox w;
                telegram := telegram w |}
      else (Ok tt, w)
  end.
Proof.
  unfold process_tick, mbind, M_bind, lift, get_level.
  destruct (level_of cfg ltp) as [level|e]; [|done].
  by case_bool_decide.
Qed.

(** The three outcomes of a call, with everything it leaves behind. *)
Lemma process_tick_cases (cfg : config) (symbol : string) (ltp bv : float) (w : world) :
  (exists e, level_of cfg ltp = Raise e /\
             process_tick cfg symbol ltp bv w = (Raise e, w)) \/
  (exists level, level_of cfg ltp = Ok level /\
                 last_level_alert w !! symbol = Some level /\
                 process_tick cfg symbol ltp bv w = (Ok tt, w)) \/
  (exists level w' evs,
     level_of cfg ltp = Ok level /\
     last_level_alert w !! symbol ≠ Some level /\
     process_tick cfg symbol ltp bv w = (Ok tt, w') /\
     last_level_alert w' = <[symbol := level]> (last_level_alert w) /\
     upstox w' = upstox w /\
     trace w' = trace w ++ evs /\
     notifications evs = [TxtAlert symbol ltp level bv]).
Proof.
  rewrite process_tick_run.
  destruct (level_of cfg ltp) as [level|e]; [|left; eauto].
  right. case_bool_decide as Hne.
  - right.
    edestruct send_telegram_run as (w' & evs & -> & Hl & Hu & Ht & Hn).
    exists level, w', (Print (TxtAlert symbol ltp level bv) :: evs).
    simpl in *. repeat split; try done.
    by rewrite Ht, <- app_assoc.
  - left. by exists level.
Qed.

(** What a call to [process_tick] hands to the Notifier. *)
Lemma process_tick_notified (cfg : config) (symbol : string) (ltp bv : float) (w : world) :
  notified (process_tick cfg symbol ltp bv) w =
  match level_of cfg ltp with
  | Ok level =>
      if bool_decide (last_level_alert w !! symbol ≠ Some level)
      then [TxtAlert symbol ltp level bv]
      else []
  | Raise _ => []
  end.
Proof.
  unfold notified, after.
  destruct (process_tick_cases cfg symbol ltp bv w)
    as [(e & -> & ->)|[(level & -> & Hs & ->)|(level & w' & evs & -> & Hs & -> & _ & _ & Ht & Hn)]];
    simpl.
  - by rewrite events_since_refl.
  - rewrite events_since_refl. by rewrite bool_decide_eq_false_2 by (by intros []).
  - rewrite (events_since_app _ _ _ Ht), Hn. by rewrite bool_decide_eq_true_2.
Qed.

(** The level map a call to [process_tick] leaves. *)
Lemma process_tick_levels (cfg : config) (symbol : string) (ltp bv : float) (w : world) :
  last_level_alert (after (process_tick cfg symbol ltp bv) w) =
  match level_of cfg ltp with
  | Ok level => <[symbol := level]> (last_level_alert w)
  | Raise _ => last_level_alert w
  end.
Proof.
  unfold after.
  destruct (process_tick_cases cfg symbol ltp bv w)
    as [(e & -> & ->)|[(level & -> & Hs & ->)|(level & w' & evs & -> & Hs & -> & Hl & _)]];
    simpl; try done.
  by rewrite insert_id.
Qed.

(** ** The level map and the alerts sent *)

Lemma alerts_app (l1 l2 : list event) : alerts (l1 ++ l2) = alerts l1 ++ alerts l2.
Proof. unfold alerts. by rewrite notifications_app, omap_app. Qed.

Lemma last_alert_app (symbol : string) (l1 l2 : list event) :
  last_alert symbol (l1 ++ l2) =
  match last_alert symbol l2 with
  | Some level => Some level
  | None => last_alert symbol l1
  end.
Proof. unfold last_alert. by rewrite alerts_app, omap_app, last_app. Qed.

Lemma after_bind {A B} (m : M A) (k : A -> M B) (w : world) :
  after (m ≫= k) w =
  match m w with
  | (Ok a, w1) => after (k a) w1
  | (Raise _, w1) => w1
  end.
Proof. unfold after, mbind, M_bind. by destruct (m w) as [[a|e] w1]. Qed.

Lemma after_try_except {A B} (body : M A) (handler : exn -> M B) (rest : A -> M B)
    (w : world) :
  after (try_except body handler rest) w =
  match body w with
  | (Ok a, w1) => after (rest a) w1
  | (Raise e, w1) => after (handler e) w1
  end.
Proof. unfold after, try_except. by destruct (body w) as [[a|e] w1]. Qed.

Lemma quiet_ret {A} (a : A) : quiet (mret a : M A).
Proof. intros w. split; [done|]. exists []. by rewrite app_nil_r. Qed.

Lemma quiet_lift {A} (r : res A) : quiet (lift r).
Proof. intros w. split; [done|]. exists []. by rewrite app_nil_r. Qed.

Lemma quiet_get_level (symbol : string) : quiet (get_level symbol).
Proof. intros w. split; [done|]. exists []. by rewrite app_nil_r. Qed.

Lemma quiet_bind {A B} (m : M A) (k : A -> M B) :
  quiet m -> (forall a, quiet (k a)) -> quiet (m ≫= k).
Proof.
  intros Hm Hk w. rewrite after_bind.
  destruct (Hm w) as (Hl & evs & Ht & Ha). unfold after in Hl, Ht.
  destruct (m w) as [[a|e] w1]; simpl in *.
  - destruct (Hk a w1) as (Hl' & evs' & Ht' & Ha').
    split; [congruence|]. exists (evs ++ evs').
    by rewrite Ht', Ht, <- app_assoc, alerts_app, Ha, Ha'.
  - split; [done|]. by exists evs.
Qed.

Lemma quiet_try_except {A B} (body : M A) (handler : exn -> M B) (rest : A -> M B) :
  quiet body -> (forall e, quiet (handler e)) -> (forall a, quiet (rest a)) ->
  quiet (try_except body handler rest).
Proof.
  intros Hb Hh Hr w. rewrite after_try_except.
  destruct (Hb w) as (Hl & evs & Ht & Ha). unfold after in Hl, Ht.
  destruct (body w) as [[a|e] w1]; simpl in *.
  - destruct (Hr a w1) as (Hl' & evs' & Ht' & Ha').
    split; [congruence|]. exists (evs ++ evs').
    by rewrite Ht', Ht, <- app_assoc, alerts_app, Ha, Ha'.
  - destruct (Hh e w1) as (Hl' & evs' & Ht' & Ha').
    split; [congruence|]. exists (evs ++ evs').
    by rewrite Ht', Ht, <- app_assoc, alerts_app, Ha, Ha'.
Qed.

Lemma quiet_emit (e : event) : alerts [e] = [] -> quiet (emit e).
Proof. intros He w. split; [done|]. by exists [e]. Qed.

Lemma quiet_requests_get (keys : string) : quiet (requests_get keys).
Proof.
  intros w. unfold after, requests_get.
  destruct (upstox w) as [|[] ?]; simpl; (split; [done|]); by exists [HttpGet keys].
Qed.

Lemma quiet_requests_post (msg : text) :
  alert_level msg = None -> quiet (requests_post msg).
Proof.
  intros Hm w. unfold after, requests_post.
  destruct (telegram w) as [|[] ?]; simpl; (split; [done|]);
    exists [HttpPost msg]; (split; [done|]); unfold alerts; simpl; by rewrite Hm.
Qed.

Lemma quiet_send_telegram (cfg : config) (msg : text) :
  alert_level msg = None -> quiet (send_telegram cfg msg).
Proof.
  intros Hm. unfold send_telegram.
  destruct (unset (TELEGRAM_BOT_TOKEN cfg) || unset (TELEGRAM_CHAT_ID cfg)).
  - apply quiet_emit. unfold alerts. simpl. by rewrite Hm.
  - apply quiet_try_except.
    + by apply quiet_requests_post.
    + intros e. by apply quiet_emit.
    + intros []. apply quiet_ret.
Qed.

Lemma quiet_fetch_quotes (cfg : config) (keys : string) : quiet (fetch_quotes cfg keys).
Proof.
  unfold fetch_quotes. destruct (unset (UPSTOX_ACCESS_TOKEN cfg)).
  - apply quiet_bind; [by apply quiet_emit|]. intros _. apply quiet_ret.
  - apply quiet_try_except; [apply quiet_requests_get| |].
    + intros e. apply quiet_bind; [by apply quiet_emit|]. intros _. apply quiet_ret.
    + intros [|status_code [data|]]; [apply quiet_ret| |].
      * destruct (status_code =? 401).
        { apply quiet_bind; [by apply quiet_emit|]. intros _.
          apply quiet_bind; [by apply quiet_send_telegram|]. intros _. apply quiet_ret. }
        apply quiet_bind; [apply quiet_lift|]. intros status.
        destruct (differs_from_str status "success"); [|apply quiet_lift].
        apply quiet_bind; [by apply quiet_emit|]. intros _. apply quiet_ret.
      * destruct (status_code =? 401).
        { apply quiet_bind; [by apply quiet_emit|]. intros _.
          apply quiet_bind; [by apply quiet_send_telegram|]. intros _. apply quiet_ret. }
        apply quiet_bind; [by apply quiet_emit|]. intros _. apply quiet_ret.
Qed.

Lemma quiet_keeps_consistent {A} (m : M A) : quiet m -> keeps_consistent m.
Proof.
  intros Hm w Hw symbol.
  destruct (Hm w) as (Hl & evs & Ht & Ha).
  rewrite Hl, Ht, last_alert_app.
  unfold last_alert at 1. rewrite Ha. simpl. apply Hw.
Qed.

Lemma keeps_consistent_bind {A B} (m : M A) (k : A -> M B) :
  keeps_consistent m -> (forall a, keeps_consistent (k a)) ->
  keeps_consistent (m ≫= k).
Proof.
  intros Hm Hk w Hw. rewrite after_bind.
  specialize (Hm w Hw). unfold after in Hm.
  destruct (m w) as [[a|e] w1]; simpl in *; [by apply Hk|done].
Qed.

Lemma keeps_consistent_try_except {A B}
    (body : M A) (handler : exn -> M B) (rest : A -> M B) :
  keeps_consistent body -> (forall e, keeps_consistent (handler e)) ->
  (forall a, keeps_consistent (rest a)) ->
  keeps_consistent (try_except body handler rest).
Proof.
  intros Hb Hh Hr w Hw. rewrite after_try_except.
  specialize (Hb w Hw). unfold after in Hb.
  destruct (body w) as [[a|e] w1]; simpl in *; [by apply Hr|by apply Hh].
Qed.

(** [process_tick] stores a level exactly when it alerts with it. *)
Lemma process_tick_keeps_consistent (cfg : config) (symbol : string) (ltp bv : float) :
  keeps_consistent (process_tick cfg symbol ltp bv).
Proof.
  intros w Hw s. unfold after.
  destruct (process_tick_cases cfg symbol ltp bv w)
    as [(e & _ & ->)|[(level & _ & _ & ->)|(level & w' & evs & _ & _ & -> & Hl & _ & Ht & Hn)]];
    simpl; try apply Hw.
  rewrite Hl, Ht, last_alert_app.
  unfold last_alert at 1, alerts. rewrite Hn. simpl.
  destruct (decide (symbol = s)) as [->|Hne].
  - by rewrite lookup_insert_eq, bool_decide_eq_true_2.
  - rewrite lookup_insert_ne, bool_decide_eq_false_2 by done. apply Hw.
Qed.

Lemma process_symbol_keeps_consistent (cfg : config)
    (float_of_str : string -> option float) (quotes : value) (k : string) :
  keeps_consistent (process_symbol cfg float_of_str quotes k).
Proof.
  unfold process_symbol.
  apply keeps_consistent_bind; [apply quiet_keeps_consistent, quiet_lift|]. intros q.
  destruct (negb (truthy q)); [apply quiet_keeps_consistent, quiet_ret|].
  apply keeps_consistent_bind; [apply quiet_keeps_consistent, quiet_lift|]. intros ltp.
  apply keeps_consistent_bind; [apply quiet_keeps_consistent, quiet_lift|]. intros qty.
  destruct (is_None ltp); [apply quiet_keeps_consistent, quiet_ret|].
  apply keeps_consistent_bind; [apply quiet_keeps_consistent, quiet_lift|]. intros price.
  apply keeps_consistent_bind; [apply quiet_keeps_consistent, quiet_lift|]. intros volume.
  apply process_tick_keeps_consistent.
Qed.

Lemma for_each_keeps_consistent {A} (l : list A) (body : A -> M unit) :
  (forall x, keeps_consistent (body x)) -> keeps_consistent (for_each l body).
Proof.
  intros Hb. induction l as [|x l IH]; simpl.
  - apply quiet_keeps_consistent, quiet_ret.
  - apply keeps_consistent_bind; [apply Hb|]. intros _. apply IH.
Qed.

Lemma poll_cycle_keeps_consistent (cfg : config) (float_of_str : string -> option float) :
  keeps_consistent (poll_cycle cfg float_of_str).
Proof.
  unfold poll_cycle.
  apply keeps_consistent_bind; [|intros _; by apply quiet_keeps_consistent, quiet_emit].
  apply keeps_consistent_try_except.
  - apply keeps_consistent_bind; [apply quiet_keeps_consistent, quiet_fetch_quotes|].
    intros quotes. apply for_each_keeps_consistent. intros k.
    apply process_symbol_keeps_consistent.
  - intros e. by apply quiet_keeps_consistent, quiet_emit.
  - intros []. apply quiet_keeps_consistent, quiet_ret.
Qed.

(** From a start with an empty map and nothing done yet, every state the
    bot goes through holds, for each symbol, the level of its latest alert
    (no entry for a symbol never alerted). *)
Lemma main_bot_consistent (cfg : config) (float_of_str : string -> option float)
    (n : nat) (w : world) :
  last_level_alert w = ∅ -> trace w = [] ->
  consistent (after (main_bot cfg float_of_str n) w).
Proof.
  intros Hl Ht.
  assert (Hw : consistent w).
  { intros s. by rewrite Hl, Ht, lookup_empty. }
  clear Hl Ht. revert w Hw. fold (keeps_consistent (main_bot cfg float_of_str n)).
  unfold main_bot.
  apply keeps_consistent_bind; [by apply quiet_keeps_consistent, quiet_emit|]. intros _.
  apply keeps_consistent_bind; [by apply quiet_keeps_consistent, quiet_send_telegram|].
  intros _. induction n as [|n IH]; simpl.
  - apply quiet_keeps_consistent, quiet_ret.
  - apply keeps_consistent_bind; [apply poll_cycle_keeps_consistent|]. by intros _.
Qed.

(** ** The Level Tracker *)



(** Two prices on the same level: whatever the first call did, the second
    one finds its level stored, alerts nobody and changes nothing. *)
Lemma same_level_suppressed
    (cfg : config) (symbol : string) (p1 p2 bv1 bv2 : float) (w : world) (level : Z) :
  level_of cfg p1 = Ok level -> level_of cfg p2 = Ok level ->
  let w1 := after (process_tick cfg symbol p1 bv1) w in
  process_tick cfg symbol p2 bv2 w1 = (Ok tt, w1).
Proof.
  intros H1 H2 w1.
  assert (Hs : last_level_alert w1 !! symbol = Some level).
  { unfold w1. rewrite process_tick_levels, H1. apply lookup_insert_eq. }
  rewrite process_tick_run, H2.
  by rewrite bool_decide_eq_false_2 by (by intros []).
Qed.

(** C5. Calling [process_tick] twice in a row with the same price for the
    same symbol: the second call never alerts (and leaves the state as the
    first call left it). *)
Theorem second_identical_call_is_silent
    (cfg : config) (symbol : string) (ltp bv1 bv2 : float) (w : world) :
  let w1 := after (process_tick cfg symbol ltp bv1) w in
  notified (process_tick cfg symbol ltp bv2) w1 = [] /\
  after (process_tick cfg symbol ltp bv2) w1 = w1.
Proof.
  intros w1. unfold notified.
  assert (E : after (process_tick cfg symbol ltp bv2) w1 = w1).
  { unfold after. destruct (level_of cfg ltp) as [level|e] eqn:Hl.
    - unfold w1. by rewrite (same_level_suppressed cfg symbol ltp ltp bv1 bv2 w level).
    - by rewrite process_tick_run, Hl. }
  rewrite E. split; [|done]. by rewrite events_since_refl.
Qed.

(** C7. When the level computed from the price is the level stored for the
    symbol, [process_tick] returns without a notification and leaves the
    whole state, hence every entry of the level map, as it was. *)
Theorem same_level_no_mutation
    (cfg : config) (symbol : string) (ltp bv : float) (w : world) (level : Z) :
  level_of cfg ltp = Ok level ->
  last_level_alert w !! symbol = Some level ->
  process_tick cfg symbol ltp bv w = (Ok tt, w) /\
  notified (process_tick cfg symbol ltp bv) w = [] /\
  last_level_alert (after (process_tick cfg symbol ltp bv) w) = last_level_alert w.
Proof.
  intros Hl Hs.
  assert (E : process_tick cfg symbol ltp bv w = (Ok tt, w)).
  { rewrite process_tick_run, Hl.
    by rewrite bool_decide_eq_false_2 by (by intros []). }
  unfold notified, after. rewrite E. simpl.
  by rewrite events_since_refl.
Qed.

Lemma same_level_no_mutation_witness :
  let w := {| last_level_alert := {["X"%string := 100; "Y"%string := 50]};
              trace := []; upstox := []; telegram := [] |} in
  let call := process_tick Examples.cfg50 "X" (Examples.dyadic 77 0) (S754_zero false) in
  call w = (Ok tt, w) /\ notified call w = [] /\
  last_level_alert (after call w) = last_level_alert w.
Proof.
  intros w call.
  apply (same_level_no_mutation Examples.cfg50 "X" (Examples.dyadic 77 0)
           (S754_zero false) w 100); vm_compute; reflexivity.
Defined.

(** C6. Step 50 and the prices 24, 76, 77, 24 for one symbol with no level
    stored yet: the four calls alert with level 0, with level 100, not at
    all, and with level 0 again. *)
Theorem scenario_24_76_77_24 (w : world) :
  last_level_alert w !! "X"%string = None ->
  Examples.feed Examples.cfg50 "X"
    [Examples.dyadic 24 0; Examples.dyadic 76 0; Examples.dyadic 77 0; Examples.dyadic 24 0] w
  = [[("X"%string, 0)]; [("X"%string, 100)]; []; [("X"%string, 0)]].
Proof.
  intros Hs.
  assert (L24 : level_of Examples.cfg50 (Examples.dyadic 24 0) = Ok 0) by (vm_compute; reflexivity).
  assert (L76 : level_of Examples.cfg50 (Examples.dyadic 76 0) = Ok 100) by (vm_compute; reflexivity).
  assert (L77 : level_of Examples.cfg50 (Examples.dyadic 77 0) = Ok 100) by (vm_compute; reflexivity).
  unfold Examples.feed.
  rewrite !process_tick_notified, !process_tick_levels, L24, L76, L77.
  rewrite Hs, !lookup_insert_eq.
  reflexivity.
Qed.

Lemma scenario_24_76_77_24_witness :
  Examples.feed Examples.cfg50 "X"
    [Examples.dyadic 24 0; Examples.dyadic 76 0; Examples.dyadic 77 0; Examples.dyadic 24 0]
    (Examples.fresh [] [true; true; true])
  = [[("X"%string, 0)]; [("X"%string, 100)]; []; [("X"%string, 0)]].
Proof.
  apply (scenario_24_76_77_24 (Examples.fresh [] [true; true; true])).
  vm_compute; reflexivity.
Defined.

(** ** Missing credentials *)

(** C8. With the Quote Source token unset (or empty), [fetch_quotes] prints
    its complaint and returns the empty mapping: no request is issued and
    no answer of the service is consumed. With the Notifier token or the
    chat id unset (or empty), [send_telegram] prints that it skips the
    message and returns normally, without a request. *)
Theorem missing_credentials_degrade
    (cfg : config) (keys : string) (msg : text) (w : world) :
  (unset (UPSTOX_ACCESS_TOKEN cfg) = true ->
     fetch_quotes cfg keys w = (Ok (JObj []), logged [Print TxtTokenNotSet] w)) /\
  (unset (TELEGRAM_BOT_TOKEN cfg) = true \/ unset (TELEGRAM_CHAT_ID cfg) = true ->
     send_telegram cfg msg w = (Ok tt, logged [Print (TxtTelegramSkipped msg)] w)).
Proof.
  split.
  - intros H. unfold fetch_quotes. by rewrite H.
  - intros H. unfold send_telegram.
    replace (unset (TELEGRAM_BOT_TOKEN cfg) || unset (TELEGRAM_CHAT_ID cfg)) with true; [done|].
    destruct H as [-> | ->]; [done|]. by rewrite orb_true_r.
Qed.

Lemma missing_credentials_degrade_witness :
  let w := Examples.fresh [Examples.success (JObj [])] [true] in
  fetch_quotes Examples.cfg_bare "A,B" w = (Ok (JObj []), logged [Print TxtTokenNotSet] w) /\
  send_telegram Examples.cfg_bare TxtStarted w
  = (Ok tt, logged [Print (TxtTelegramSkipped TxtStarted)] w) /\
  forallb (fun e => negb (is_request e))
    (events_since w (after (fetch_quotes Examples.cfg_bare "A,B") w)
     ++ events_since w (after (send_telegram Examples.cfg_bare TxtStarted) w)) = true.
Proof.
  intros w.
  destruct (missing_credentials_degrade Examples.cfg_bare "A,B" TxtStarted w) as [Hf Hs].
  split; [apply Hf; reflexivity|].
  split; [apply Hs; left; reflexivity|].
  unfold after. rewrite Hf, Hs by (reflexivity || (left; reflexivity)).
  vm_compute. reflexivity.
Defined.

(** ** The poll loop *)

Lemma for_each_app {A} (l1 l2 : list A) (body : A -> M unit) (w : world) :
  for_each (l1 ++ l2) body w =
  match for_each l1 body w with
  | (Ok _, w1) => for_each l2 body w1
  | (Raise e, w1) => (Raise e, w1)
  end.
Proof.
  revert w. induction l1 as [|x l1 IH]; intros w; simpl; [done|].
  unfold mbind, M_bind. destruct (body x w) as [[[]|e] w1]; [apply IH|done].
Qed.

(** An exception in the body leaves the loop at once: the elements after
    the failing one are never visited. *)
Lemma for_each_raise {A} (pre post : list A) (x : A) (body : A -> M unit)
    (e : exn) (w w1 w2 : world) :
  for_each pre body w = (Ok tt, w1) ->
  body x w1 = (Raise e, w2) ->
  for_each (pre ++ x :: post) body w = (Raise e, w2).
Proof.
  intros Hpre Hx. rewrite for_each_app, Hpre. simpl.
  unfold mbind, M_bind. by rewrite Hx.
Qed.

(** A symbol without a truthy quote is passed over. *)
Lemma process_symbol_skip (cfg : config) (float_of_str : string -> option float)
    (quotes q : value) (k : string) (w : world) :
  get quotes k JNull = Ok q -> truthy q = false ->
  process_symbol cfg float_of_str quotes k w = (Ok tt, w).
Proof.
  intros Hq Ht. unfold process_symbol, mbind, M_bind, lift.
  by rewrite Hq, Ht.
Qed.

Lemma for_each_empty_quotes (cfg : config) (float_of_str : string -> option float)
    (keys : list string) (w : world) :
  for_each keys (process_symbol cfg float_of_str (JObj [])) w = (Ok tt, w).
Proof.
  induction keys as [|k keys IH]; simpl; [done|].
  unfold mbind, M_bind.
  by rewrite (process_symbol_skip cfg float_of_str (JObj []) JNull k w).
Qed.

(** No iteration of the loop lets an exception out. *)
Lemma poll_cycle_total (cfg : config) (float_of_str : string -> option float) (w : world) :
  exists w', poll_cycle cfg float_of_str w = (Ok tt, w').
Proof.
  unfold poll_cycle, try_except.
  unfold mbind at 1. unfold M_bind at 1.
  destruct ((quotes ← fetch_quotes cfg (joined_keys cfg);
             for_each (keys_list cfg) (process_symbol cfg float_of_str quotes)) w)
    as [[[]|e] w1]; simpl; eauto.
Qed.

Lemma poll_cycles_total (cfg : config) (float_of_str : string -> option float)
    (n : nat) (w : world) :
  exists w', poll_cycles cfg float_of_str n w = (Ok tt, w').
Proof.
  revert w. induction n as [|n IH]; intros w; simpl; [by eexists|].
  destruct (poll_cycle_total cfg float_of_str w) as [w1 H1].
  unfold mbind, M_bind. rewrite H1. apply IH.
Qed.

(** C2, as the code has it. When the evaluation of one symbol raises, the
    [for] loop is left at once: the cycle ends in the state the failing
    symbol left, with the error printed at the cycle boundary and the
    sleep; the symbols after it in the configured order are not evaluated
    in that cycle. The cycle itself returns normally. *)
Theorem symbol_failure_ends_cycle
    (cfg : config) (float_of_str : string -> option float)
    (pre post : list string) (k : string) (quotes : value) (e : exn)
    (w w0 w1 w2 : world) :
  keys_list cfg = pre ++ k :: post ->
  fetch_quotes cfg (joined_keys cfg) w = (Ok quotes, w0) ->
  for_each pre (process_symbol cfg float_of_str quotes) w0 = (Ok tt, w1) ->
  process_symbol cfg float_of_str quotes k w1 = (Raise e, w2) ->
  poll_cycle cfg float_of_str w
  = (Ok tt, logged [Print (TxtLoopError e); Sleep] w2).
Proof.
  intros Hk Hf Hpre Hx.
  unfold poll_cycle, try_except.
  unfold mbind at 1. unfold M_bind at 1.
  unfold mbind at 1. unfold M_bind at 1.
  rewrite Hf, Hk, (for_each_raise pre post k _ e w0 w1 w2 Hpre Hx).
  unfold print, emit, logged. simpl. by rewrite <- app_assoc.
Qed.

Lemma symbol_failure_ends_cycle_witness :
  let w := Examples.fresh [Examples.success Examples.quotes_bad_depth] [true; true] in
  poll_cycle Examples.cfg50 Examples.no_parser w
  = (Ok tt, logged [Print (TxtLoopError TypeError); Sleep]
              (after (fetch_quotes Examples.cfg50 "A,B") w)).
Proof.
  intros w.
  apply (symbol_failure_ends_cycle Examples.cfg50 Examples.no_parser
           [] ["B"%string] "A" Examples.quotes_bad_depth TypeError
           w (after (fetch_quotes Examples.cfg50 "A,B") w)
           (after (fetch_quotes Examples.cfg50 "A,B") w));
    vm_compute; reflexivity.
Defined.

(** Against C2 as stated: symbols A then B, the depth of A malformed and the
    quote of B clean. Evaluated on its own, B alerts at level 100; in the
    cycle, the [TypeError] raised for A is caught only at the cycle
    boundary, and B is neither alerted nor stored. *)
Lemma later_symbol_not_evaluated :
  let w := Examples.fresh [Examples.success Examples.quotes_bad_depth] [true; true] in
  let w' := after (poll_cycle Examples.cfg50 Examples.no_parser) w in
  omap alert_level
    (notified (process_symbol Examples.cfg50 Examples.no_parser
                 Examples.quotes_bad_depth "B") w) = [("B"%string, 100)] /\
  last_level_alert w' !! "B"%string = None /\
  notifications (events_since w w') = [] /\
  events_since w w' = [HttpGet "A,B"; Print (TxtLoopError TypeError); Sleep].
Proof. vm_compute. repeat split. Qed.

(** ** Authentication failure *)

(** A request answered 401: [fetch_quotes] returns the empty mapping after
    handing the Notifier one message about the token. *)
Lemma fetch_quotes_unauthorized (cfg : config) (keys : string)
    (body : option value) (rest : list http_outcome) (w : world) :
  unset (UPSTOX_ACCESS_TOKEN cfg) = false ->
  upstox w = Response 401 body :: rest ->
  exists w' evs,
    fetch_quotes cfg keys w = (Ok (JObj []), w') /\
    last_level_alert w' = last_level_alert w /\
    upstox w' = rest /\
    trace w' = trace w ++ evs /\
    notifications evs = [TxtTokenInvalid].
Proof.
  intros Htok Hup.
  unfold fetch_quotes. rewrite Htok.
  unfold try_except, requests_get. rewrite Hup. simpl.
  unfold mbind at 1. unfold M_bind at 1. simpl.
  unfold mbind at 1. unfold M_bind at 1.
  edestruct send_telegram_run as (w1 & evs & -> & Hl & Hu & Ht & Hn).
  simpl in *.
  eexists _, (HttpGet keys :: Print TxtUnauthorized :: evs).
  repeat split; simpl; try done.
  rewrite Ht. by rewrite <- !app_assoc.
Qed.

(** A cycle whose request is answered 401: one message about the token
    goes to the Notifier, no symbol is evaluated, the cycle ends normally. *)
Lemma poll_cycle_unauthorized (cfg : config) (float_of_str : string -> option float)
    (body : option value) (rest : list http_outcome) (w : world) :
  unset (UPSTOX_ACCESS_TOKEN cfg) = false ->
  upstox w = Response 401 body :: rest ->
  exists w' evs,
    poll_cycle cfg float_of_str w = (Ok tt, w') /\
    last_level_alert w' = last_level_alert w /\
    upstox w' = rest /\
    trace w' = trace w ++ evs /\
    notifications evs = [TxtTokenInvalid].
Proof.
  intros Htok Hup.
  destruct (fetch_quotes_unauthorized cfg (joined_keys cfg) body rest w Htok Hup)
    as (w1 & evs & Hf & Hl & Hu & Ht & Hn).
  unfold poll_cycle, try_except.
  unfold mbind at 1. unfold M_bind at 1.
  unfold mbind at 1. unfold M_bind at 1.
  rewrite Hf, for_each_empty_quotes. simpl.
  eexists _, (evs ++ [Sleep]).
  repeat split; simpl; try done.
  - rewrite Ht. by rewrite <- !app_assoc.
  - rewrite notifications_app, Hn. done.
Qed.

Lemma poll_cycles_unauthorized (cfg : config) (float_of_str : string -> option float)
    (bodies : list (option value)) (rest : list http_outcome) (w : world) :
  unset (UPSTOX_ACCESS_TOKEN cfg) = false ->
  upstox w = map (Response 401) bodies ++ rest ->
  exists w' evs,
    poll_cycles cfg float_of_str (length bodies) w = (Ok tt, w') /\
    last_level_alert w' = last_level_alert w /\
    upstox w' = rest /\
    trace w' = trace w ++ evs /\
    notifications evs = repeat TxtTokenInvalid (length bodies).
Proof.
  intros Htok. revert w.
  induction bodies as [|body bodies IH]; intros w Hup; simpl in *.
  - exists w, []. by rewrite app_nil_r.
  - destruct (poll_cycle_unauthorized cfg float_of_str body _ w Htok Hup)
      as (w1 & evs1 & Hrun & Hl & Hu & Ht & Hn).
    destruct (IH w1 Hu) as (w2 & evs2 & Hrun2 & Hl2 & Hu2 & Ht2 & Hn2).
    exists w2, (evs1 ++ evs2). unfold mbind, M_bind. rewrite Hrun.
    repeat split; try done.
    + congruence.
    + by rewrite Ht2, Ht, <- app_assoc.
    + by rewrite notifications_app, Hn, Hn2.
Qed.

(** C3, as the code has it. With the token set, a request answered 401
    makes [fetch_quotes] return the empty mapping after one message about
    the invalid token to the Notifier; and consecutive cycles that are each
    answered 401 all end normally without touching the level map, each of
    them sending that message: as many messages as unauthorized cycles. *)
Theorem unauthorized_notifies_every_cycle
    (cfg : config) (float_of_str : string -> option float)
    (bodies : list (option value)) (rest : list http_outcome) (w : world) :
  unset (UPSTOX_ACCESS_TOKEN cfg) = false ->
  upstox w = map (Response 401) bodies ++ rest ->
  (bodies ≠ [] ->
   forall keys, fst (fetch_quotes cfg keys w) = Ok (JObj []) /\
                notified (fetch_quotes cfg keys) w = [TxtTokenInvalid]) /\
  exists w',
    poll_cycles cfg float_of_str (length bodies) w = (Ok tt, w') /\
    last_level_alert w' = last_level_alert w /\
    upstox w' = rest /\
    notifications (events_since w w') = repeat TxtTokenInvalid (length bodies).
Proof.
  intros Htok Hup. split.
  - intros Hne keys. destruct bodies as [|body bodies]; [done|].
    destruct (fetch_quotes_unauthorized cfg keys body _ w Htok Hup)
      as (w1 & evs & Hf & _ & _ & Ht & Hn).
    unfold notified, after. rewrite Hf. simpl.
    by rewrite (events_since_app _ _ _ Ht).
  - destruct (poll_cycles_unauthorized cfg float_of_str bodies rest w Htok Hup)
      as (w' & evs & Hrun & Hl & Hu & Ht & Hn).
    exists w'. by rewrite (events_since_app _ _ _ Ht).
Qed.

Lemma unauthorized_notifies_every_cycle_witness :
  let w := Examples.fresh [Response 401 None; Response 401 None; Response 401 None] [true] in
  exists w',
    poll_cycles Examples.cfg50 Examples.no_parser 3 w = (Ok tt, w') /\
    last_level_alert w' = last_level_alert w /\
    upstox w' = [] /\
    notifications (events_since w w') = [TxtTokenInvalid; TxtTokenInvalid; TxtTokenInvalid].
Proof.
  intros w.
  apply (unauthorized_notifies_every_cycle Examples.cfg50 Examples.no_parser
           [None; None; None] [] w); reflexivity.
Defined.

(** Against C3 as stated: two cycles in a row answered 401 hand the
    Notifier the message about the token twice, not once. *)
Lemma unauthorized_twice_notifies_twice :
  let w := Examples.fresh [Response 401 None; Response 401 None] [true; true; true] in
  main_bot Examples.cfg50 Examples.no_parser 2 w
  = (Ok tt, after (main_bot Examples.cfg50 Examples.no_parser 2) w) /\
  notified (main_bot Examples.cfg50 Examples.no_parser 2) w
  = [TxtStarted; TxtTokenInvalid; TxtTokenInvalid] /\
  length (filter (fun t => is_token_invalid t = true)
            (notified (main_bot Examples.cfg50 Examples.no_parser 2) w)) = 2%nat.
Proof. vm_compute. repeat split. Qed.

(** ** Price extraction *)

(** What the loop body does with a truthy quote once the price and the
    volume have been read. *)
Lemma process_symbol_quote (cfg : config) (float_of_str : string -> option float)
    (quotes q ltp : value) (qty : num) (k : string) (w : world) :
  get quotes k JNull = Ok q -> truthy q = true ->
  quote_ltp q = Ok ltp -> quote_buy_qty q = Ok qty ->
  process_symbol cfg float_of_str quotes k w =
  if is_None ltp then (Ok tt, w)
  else (price ← lift (to_float float_of_str ltp);
        volume ← lift (float_of_num qty);
        process_tick cfg k price volume) w.
Proof.
  intros Hq Ht Hl Hb. unfold process_symbol.
  unfold mbind at 1. unfold M_bind at 1. unfold lift at 1. rewrite Hq, Ht. simpl.
  unfold mbind at 1. unfold M_bind at 1. unfold lift at 1. rewrite Hl.
  unfold mbind at 1. unfold M_bind at 1. unfold lift at 1. rewrite Hb.
  by destruct (is_None ltp).
Qed.

(** C10, as the code has it. A [last_price] that is present but falsy is
    treated like a missing one: the price is whatever [q.get("ltp")] gives.
    When that is [None] (field absent or null) the symbol is passed over
    without a trace, provided its depth data went through; when it is
    anything else, zero included, the symbol is evaluated with it. A falsy
    quote object (the empty dict among them) is passed over. *)
Theorem falsy_last_price_falls_through
    (cfg : config) (float_of_str : string -> option float)
    (quotes q : value) (k : string) (w : world) :
  get quotes k JNull = Ok q ->
  (truthy q = false ->
     process_symbol cfg float_of_str quotes k w = (Ok tt, w)) /\
  (forall last_price, get q "last_price" JNull = Ok last_price ->
     truthy last_price = false ->
     quote_ltp q = get q "ltp" JNull) /\
  (forall ltp qty, truthy q = true ->
     quote_ltp q = Ok ltp -> quote_buy_qty q = Ok qty ->
     (is_None ltp = true ->
        process_symbol cfg float_of_str quotes k w = (Ok tt, w)) /\
     (is_None ltp = false ->
        process_symbol cfg float_of_str quotes k w =
        (price ← lift (to_float float_of_str ltp);
         volume ← lift (float_of_num qty);
         process_tick cfg k price volume) w)).
Proof.
  intros Hq. split; [|split].
  - intros Ht. by apply (process_symbol_skip cfg float_of_str quotes q).
  - intros last_price Hlp Ht. unfold quote_ltp. rewrite Hlp. simpl. by rewrite Ht.
  - intros ltp qty Ht Hl Hb.
    rewrite (process_symbol_quote cfg float_of_str quotes q ltp qty k w Hq Ht Hl Hb).
    split; intros ->; done.
Qed.

Lemma falsy_last_price_falls_through_witness :
  let w := Examples.fresh [] [true] in
  let q := JObj [("last_price", JFloat (S754_zero false)); ("ltp", JNull)]%string in
  let quotes := JObj [("A", q); ("B", JObj [])]%string in
  process_symbol Examples.cfg50 Examples.no_parser quotes "B" w = (Ok tt, w) /\
  quote_ltp q = get q "ltp" JNull /\
  process_symbol Examples.cfg50 Examples.no_parser quotes "A" w = (Ok tt, w).
Proof.
  intros w q quotes.
  split; [|split].
  - apply (falsy_last_price_falls_through Examples.cfg50 Examples.no_parser
             quotes (JObj []) "B" w); reflexivity.
  - apply (falsy_last_price_falls_through Examples.cfg50 Examples.no_parser
             quotes q "A" w eq_refl) with (last_price := JFloat (S754_zero false));
      reflexivity.
  - apply (falsy_last_price_falls_through Examples.cfg50 Examples.no_parser
             quotes q "A" w eq_refl) with (ltp := JNull) (qty := NInt 0);
      reflexivity.
Defined.

(** Against C10 as stated: with [last_price] zero and the fallback [ltp]
    zero as well (falsy, not [None]), the symbol is not passed over: it is
    evaluated at price 0.0 and alerts with level 0. *)
Lemma zero_fallback_is_evaluated :
  let w := Examples.fresh [] [true] in
  let quotes := JObj [("A"%string, Examples.quote_zero)] in
  let call := process_symbol Examples.cfg50 Examples.no_parser quotes "A" in
  truthy (JInt 0) = false /\ is_None (JInt 0) = false /\
  quote_ltp Examples.quote_zero = Ok (JInt 0) /\
  notified call w = [TxtAlert "A" (S754_zero false) 0 (S754_zero false)] /\
  last_level_alert (after call w) !! "A"%string = Some 0.
Proof. vm_compute. repeat split. Qed.

(** ** Quantization *)

Lemma pow_pos_den (k : positive) : Z.pos (2 ^ k) = Z.pow_pos 2 k.
Proof. by rewrite Pos2Z.inj_pow, Z.pow_pos_fold. Qed.

(** [round_half_even m k] against [m / 2^k], cleared of denominators. *)
Lemma round_half_even_spec (m k : positive) :
  let d := Z.pow_pos 2 k in
  let n := round_half_even m k in
  2 * Z.abs (n * d - Z.pos m) <= d /\
  (2 * Z.abs (n * d - Z.pos m) = d -> Z.even n = true).
Proof.
  intros d n. unfold n, round_half_even. fold d.
  assert (Hd : 0 < d) by (unfold d; rewrite Z.pow_pos_fold; lia).
  pose proof (Z.div_mod (Z.pos m) d ltac:(lia)) as Hdm.
  pose proof (Z.mod_pos_bound (Z.pos m) d Hd) as Hr.
  set (q := Z.pos m / d) in *. set (r := Z.pos m mod d) in *.
  destruct (Z.compare_spec (2 * r) d) as [He|Hlt|Hgt].
  - destruct (Z.even q) eqn:Hq.
    + split; [nia|done].
    + split; [nia|]. intros _.
      replace (q + 1) with (Z.succ q) by lia.
      by rewrite Z.even_succ, <- Z.negb_even, Hq.
  - split; [nia|]. intros H. exfalso. nia.
  - split; [nia|]. intros H. exfalso. nia.
Qed.

(** [round] returns an integer nearest to its argument, ties to even, for
    every finite float. *)
Lemma round_nearest_even (x : float) :
  is_finite x = true -> exists n, round x = Ok n /\ nearest_even (to_Q x) n.
Proof.
  destruct x as [s|s| |s m e]; try done; intros _.
  - exists 0. split; [done|]. split; [done|]. intros H. by vm_compute in H.
  - assert (Hint : forall z : Z, nearest_even (inject_Z z) z).
    { intros z. unfold nearest_even.
      assert (E : (inject_Z z - inject_Z z == 0)%Q) by ring.
      split.
      - rewrite E. done.
      - intros H. rewrite E in H. by vm_compute in H. }
    destruct e as [|e|k]; simpl; try (eexists; split; [done|apply Hint]).
    exists (cond_Zopp s (round_half_even m k)). split; [done|].
    destruct (round_half_even_spec m k) as [Hle Htie].
    rewrite <- pow_pos_den in Hle, Htie.
    unfold nearest_even, Qle, Qeq, Qabs, Qminus, Qplus, Qopp, inject_Z.
    destruct s; simpl Qnum; simpl Qden; simpl cond_Zopp;
      rewrite ?Z.even_opp; split; (lia || (intros; apply Htie; lia)).
Qed.

(** [int] truncates the value of a finite float toward zero. *)
Lemma int_truncates (x : float) :
  is_finite x = true -> int x = Ok (Qtrunc (to_Q x)).
Proof.
  destruct x as [s|s| |s m e]; try done; intros _.
  assert (Hint : forall z : Z, Qtrunc (inject_Z z) = z).
  { intros z. unfold Qtrunc. rewrite Qfloor_Z, Qceiling_Z. by destruct (Qle_bool _ _). }
  destruct e as [|e|k]; simpl; rewrite ?Hint; try done.
  f_equal. unfold Qtrunc, Qle_bool, Qceiling, Qfloor, Qopp.
  destruct s; simpl; by rewrite pow_pos_den.
Qed.

Lemma level_of_inv (cfg : config) (ltp : float) (level : Z) :
  level_of cfg ltp = Ok level ->
  exists g, grid_value cfg ltp = Ok g /\ is_finite g = true /\
            level = Qtrunc (to_Q g).
Proof.
  unfold level_of, mbind, res_bind.
  destruct (grid_value cfg ltp) as [g|e]; [|done].
  intros H. exists g. split; [done|].
  assert (Hf : is_finite g = true) by (by destruct g).
  split; [done|]. rewrite (int_truncates g Hf) in H. congruence.
Qed.

Lemma grid_value_inv (cfg : config) (ltp g : float) :
  grid_value cfg ltp = Ok g ->
  exists q n,
    truediv ltp (LEVEL_STEP_POINTS cfg) = Ok q /\
    round q = Ok n /\ nearest_even (to_Q q) n /\
    mul_int_float n (LEVEL_STEP_POINTS cfg) = Ok g.
Proof.
  unfold grid_value, mbind, res_bind.
  destruct (truediv ltp (LEVEL_STEP_POINTS cfg)) as [q|e]; [|done].
  destruct (round q) as [n|e] eqn:Hr; [|done].
  intros Hg. exists q, n. repeat split; try done.
  - assert (Hf : is_finite q = true) by (by destruct q).
    destruct (round_nearest_even q Hf) as (n' & Hn' & Hne).
    destruct Hne. congruence.
  - assert (Hf : is_finite q = true) by (by destruct q).
    destruct (round_nearest_even q Hf) as (n' & Hn' & Hne).
    assert (n' = n) as -> by congruence. apply Hne.
Qed.

(** C9. A level that [process_tick] computes is the grid value
    [round(ltp / step) * step] truncated toward zero, and that integer is
    what the map stores. Hence two prices whose grid values differ but
    truncate to the same integer are one level to the comparison: the
    second is not alerted. And for a step that is not an integer the stored
    level can fail to be a multiple of the step (step 1.5, price 1.5:
    level 1). *)
Theorem stored_level_is_truncated
    (cfg : config) (symbol : string) (p1 p2 bv1 bv2 : float) (w : world) :
  let w1 := after (process_tick cfg symbol p1 bv1) w in
  (forall level, level_of cfg p1 = Ok level ->
     exists g, grid_value cfg p1 = Ok g /\ is_finite g = true /\
               level = Qtrunc (to_Q g) /\
               last_level_alert w1 !! symbol = Some (Qtrunc (to_Q g)) /\
               (notified (process_tick cfg symbol p1 bv1) w = [] \/
                notified (process_tick cfg symbol p1 bv1) w
                = [TxtAlert symbol p1 (Qtrunc (to_Q g)) bv1])) /\
  (forall g1 g2,
     grid_value cfg p1 = Ok g1 -> grid_value cfg p2 = Ok g2 ->
     is_finite g1 = true -> is_finite g2 = true ->
     Qtrunc (to_Q g1) = Qtrunc (to_Q g2) ->
     notified (process_tick cfg symbol p2 bv2) w1 = [] /\
     after (process_tick cfg symbol p2 bv2) w1 = w1) /\
  (exists step ltp level,
     (forall z : Z, ~ (to_Q step == inject_Z z)%Q) /\
     level_of (Examples.cfg_step step) ltp = Ok level /\
     forall k : Z, ~ (inject_Z k * to_Q step == inject_Z level)%Q).
Proof.
  intros w1. split; [|split].
  - intros level Hl.
    destruct (level_of_inv cfg p1 level Hl) as (g & Hg & Hf & ->).
    exists g. split_and!; try done.
    + unfold w1. rewrite process_tick_levels, Hl. apply lookup_insert_eq.
    + rewrite process_tick_notified, Hl. case_bool_decide; eauto.
  - intros g1 g2 Hg1 Hg2 Hf1 Hf2 Ht.
    assert (L1 : level_of cfg p1 = Ok (Qtrunc (to_Q g1))).
    { unfold level_of, mbind, res_bind. rewrite Hg1. by apply int_truncates. }
    assert (L2 : level_of cfg p2 = Ok (Qtrunc (to_Q g1))).
    { unfold level_of, mbind, res_bind. rewrite Hg2, Ht. by apply int_truncates. }
    pose proof (same_level_suppressed cfg symbol p1 p2 bv1 bv2 w _ L1 L2) as E.
    simpl in E. fold w1 in E.
    unfold notified, after. rewrite E. simpl. by rewrite events_since_refl.
  - exists Examples.one_and_half, Examples.one_and_half, 1.
    split; [|split].
    + intros z. change (to_Q Examples.one_and_half) with (6755399441055744 # 4503599627370496)%Q.
      unfold Qeq, inject_Z. simpl Qnum. simpl Qden. lia.
    + vm_compute. reflexivity.
    + intros k. change (to_Q Examples.one_and_half) with (6755399441055744 # 4503599627370496)%Q.
      unfold Qeq, Qmult, inject_Z. simpl Qnum. simpl Qden. lia.
Qed.

Lemma stored_level_is_truncated_witness :
  let cfg := Examples.cfg_step Examples.half in
  let w := Examples.fresh [] [true; true] in
  let w1 := after (process_tick cfg "X" Examples.quarter (S754_zero false)) w in
  grid_value cfg Examples.quarter = Ok (S754_zero false) /\
  grid_value cfg Examples.half = Ok Examples.half /\
  ~ (to_Q (S754_zero false) == to_Q Examples.half)%Q /\
  last_level_alert w1 !! "X"%string = Some 0 /\
  notified (process_tick cfg "X" Examples.half (S754_zero false)) w1 = [].
Proof.
  intros cfg w w1.
  destruct (stored_level_is_truncated cfg "X" Examples.quarter Examples.half
              (S754_zero false) (S754_zero false) w) as (H1 & H2 & _).
  split; [reflexivity|]. split; [reflexivity|]. split; [by vm_compute|].
  split.
  - destruct (H1 0 eq_refl) as (g & Hg & _ & _ & Hs & _).
    assert (g = S754_zero false) as -> by (vm_compute in Hg; congruence).
    exact Hs.
  - apply (H2 (S754_zero false) Examples.half); reflexivity.
Defined.

(** C4, as the code has it. Whenever [process_tick] computes a level, the
    quotient [ltp / step] was rounded to a nearest integer, the even one on
    a tie, that integer was multiplied by the step in binary64, and the
    level is the product truncated toward zero; the level is the product
    itself exactly when the product is an integer. The level depends on
    nothing but the step and the price. *)
Theorem level_is_truncated_grid_value (cfg : config) (ltp : float) (level : Z) :
  level_of cfg ltp = Ok level ->
  exists q n g,
    truediv ltp (LEVEL_STEP_POINTS cfg) = Ok q /\
    round q = Ok n /\ nearest_even (to_Q q) n /\
    mul_int_float n (LEVEL_STEP_POINTS cfg) = Ok g /\
    is_finite g = true /\
    level = Qtrunc (to_Q g) /\
    ((inject_Z level == to_Q g)%Q <-> (inject_Z (Qfloor (to_Q g)) == to_Q g)%Q).
Proof.
  intros Hl.
  destruct (level_of_inv cfg ltp level Hl) as (g & Hg & Hf & ->).
  destruct (grid_value_inv cfg ltp g Hg) as (q & n & Hq & Hn & Hne & Hm).
  exists q, n, g. split_and!; try done.
  unfold Qtrunc. destruct (Qle_bool 0 (to_Q g)) eqn:Hs; [done|].
  split; intros H.
  - assert (E : Qfloor (to_Q g) = Qceiling (to_Q g)).
    { rewrite <- (Qfloor_Z (Qceiling (to_Q g))). by apply Qfloor_comp. }
    by rewrite E.
  - assert (E : Qceiling (to_Q g) = Qfloor (to_Q g)).
    { rewrite <- (Qceiling_Z (Qfloor (to_Q g))). by apply Qceiling_comp. }
    by rewrite E.
Qed.

Lemma level_is_truncated_grid_value_witness :
  exists q n g,
    truediv (Examples.dyadic 76 0) (Examples.dyadic 50 0) = Ok q /\
    round q = Ok n /\ nearest_even (to_Q q) n /\
    mul_int_float n (Examples.dyadic 50 0) = Ok g /\
    is_finite g = true /\
    100 = Qtrunc (to_Q g) /\
    ((inject_Z 100 == to_Q g)%Q <-> (inject_Z (Qfloor (to_Q g)) == to_Q g)%Q).
Proof.
  apply (level_is_truncated_grid_value Examples.cfg50 (Examples.dyadic 76 0) 100).
  vm_compute. reflexivity.
Defined.

(** Against C4 as stated: with step 0.5 and price 0.5 the grid value
    [round(price / step) * step] is 0.5 and the level is 0; and with step
    [2^-1074] and price 1 the quotient overflows and no level is computed. *)
Lemma level_is_not_the_grid_value :
  grid_value (Examples.cfg_step Examples.half) Examples.half = Ok Examples.half /\
  (to_Q Examples.half == 1 # 2)%Q /\
  level_of (Examples.cfg_step Examples.half) Examples.half = Ok 0 /\
  ~ (inject_Z 0 == to_Q Examples.half)%Q /\
  level_of (Examples.cfg_step (Examples.dyadic 1 (-1074))) (Examples.dyadic 1 0)
  = Raise OverflowError.
Proof. vm_compute. repeat split; discriminate. Qed.

(** * Further properties of the script *)

(** ** [process_tick] *)

Lemma process_tick_raises
    (cfg : config) (symbol : string) (ltp bv : float) (w : world) (e : exn) :
  level_of cfg ltp = Raise e -> process_tick cfg symbol ltp bv w = (Raise e, w).
Proof. intros H. by rewrite process_tick_run, H. Qed.

(** X1. When the level of the price is computed, [process_tick] returns
    normally and the map then holds that level for the symbol; the entries
    of all other symbols and the pending answers of the Quote Source are as
    before. *)
Theorem process_tick_stores_level
    (cfg : config) (symbol : string) (ltp bv : float) (w : world) (level : Z) :
  level_of cfg ltp = Ok level ->
  (process_tick cfg symbol ltp bv w).1 = Ok tt /\
  last_level_alert (after (process_tick cfg symbol ltp bv) w) !! symbol = Some level /\
  (forall other, other ≠ symbol ->
     last_level_alert (after (process_tick cfg symbol ltp bv) w) !! other
     = last_level_alert w !! other) /\
  upstox (after (process_tick cfg symbol ltp bv) w) = upstox w.
Proof.
  intros Hl. rewrite process_tick_levels, Hl. unfold after.
  destruct (process_tick_cases cfg symbol ltp bv w)
    as [(e & He & _)|[(l & _ & _ & ->)|(l & w' & evs & _ & _ & -> & _ & Hu & _)]];
    [congruence|..]; simpl; split_and!; try done.
  - apply lookup_insert_eq.
  - intros other Hne. by rewrite lookup_insert_ne.
  - apply lookup_insert_eq.
  - intros other Hne. by rewrite lookup_insert_ne.
Qed.

Lemma process_tick_stores_level_witness :
  let w := {| last_level_alert := {["Y"%string := 50]};
              trace := []; upstox := [ConnectionFailed]; telegram := [] |} in
  let call := process_tick Examples.cfg50 "X" (Examples.dyadic 76 0) (S754_zero false) in
  (call w).1 = Ok tt /\
  last_level_alert (after call w) !! "X"%string = Some 100 /\
  (forall other, other ≠ "X"%string ->
     last_level_alert (after call w) !! other = last_level_alert w !! other) /\
  upstox (after call w) = upstox w.
Proof.
  intros w call.
  apply (process_tick_stores_level Examples.cfg50 "X" (Examples.dyadic 76 0)
           (S754_zero false) w 100).
  vm_compute. reflexivity.
Defined.

(** X2. [process_tick] raises exactly when the computation of the level
    raises, with the same exception, and then it has done nothing: the
    state is the one it was called in. *)
Theorem process_tick_failure_is_clean
    (cfg : config) (symbol : string) (ltp bv : float) (w w' : world) (e : exn) :
  process_tick cfg symbol ltp bv w = (Raise e, w') <->
  level_of cfg ltp = Raise e /\ w' = w.
Proof.
  destruct (process_tick_cases cfg symbol ltp bv w)
    as [(e' & He & ->)|[(l & Hl & _ & ->)|(l & w1 & evs & Hl & _ & -> & _)]].
  - split; [intros [= -> ->]; done|]. intros [H ->]. congruence.
  - split; [done|]. intros [H _]. congruence.
  - split; [done|]. intros [H _]. congruence.
Qed.

Lemma process_tick_failure_is_clean_witness :
  let cfg := Examples.cfg_step (S754_zero false) in
  let w := Examples.fresh [] [true] in
  process_tick cfg "X" (Examples.dyadic 76 0) (S754_zero false) w
  = (Raise ZeroDivisionError, w).
Proof.
  intros cfg w.
  apply (process_tick_failure_is_clean cfg "X" (Examples.dyadic 76 0)
           (S754_zero false) w w ZeroDivisionError).
  split; reflexivity.
Defined.

(** X6. The buy-side volume takes no part in the decision: two calls that
    differ only in it leave the same level map and alert with the same
    symbol and level, or both not at all. *)
Theorem buy_volume_is_informational
    (cfg : config) (symbol : string) (ltp bv1 bv2 : float) (w : world) :
  last_level_alert (after (process_tick cfg symbol ltp bv1) w)
  = last_level_alert (after (process_tick cfg symbol ltp bv2) w) /\
  omap alert_level (notified (process_tick cfg symbol ltp bv1) w)
  = omap alert_level (notified (process_tick cfg symbol ltp bv2) w).
Proof.
  rewrite !process_tick_levels, !process_tick_notified.
  destruct (level_of cfg ltp) as [level|e]; [|done].
  by case_bool_decide.
Qed.

(** ** The level of special prices and steps *)

(** A step that is zero, infinite or not a number gives no price a level. *)
Lemma unusable_step_no_level (cfg : config) (ltp : float) :
  is_finite (LEVEL_STEP_POINTS cfg) && negb (is_zero (LEVEL_STEP_POINTS cfg)) = false ->
  exists e, level_of cfg ltp = Raise e.
Proof.
  unfold level_of, grid_value, truediv.
  destruct (LEVEL_STEP_POINTS cfg) as [s|s| |s m e]; try done; intros _; simpl.
  - by exists ZeroDivisionError.
  - destruct ltp as [s'|s'| |s' m' e']; simpl; by eexists.
  - destruct ltp as [s'|s'| |s' m' e']; simpl; by eexists.
Qed.

(** X4. With a finite non-zero step, a price that is not a number raises
    [ValueError] and an infinite price raises [OverflowError]; in both
    cases [process_tick] leaves the state untouched. *)
Theorem non_finite_price_raises
    (cfg : config) (symbol : string) (ltp bv : float) (w : world) :
  is_finite (LEVEL_STEP_POINTS cfg) && negb (is_zero (LEVEL_STEP_POINTS cfg)) = true ->
  is_finite ltp = false ->
  process_tick cfg symbol ltp bv w
  = (Raise (match ltp with S754_nan => ValueError | _ => OverflowError end), w).
Proof.
  intros Hs Hp. apply process_tick_raises.
  unfold level_of, grid_value, truediv.
  destruct (LEVEL_STEP_POINTS cfg) as [s|s| |s m e]; try done.
  destruct ltp as [s'|s'| |s' m' e']; try done.
Qed.

Lemma non_finite_price_raises_witness :
  let w := Examples.fresh [] [true] in
  process_tick Examples.cfg50 "X" S754_nan (S754_zero false) w = (Raise ValueError, w) /\
  process_tick Examples.cfg50 "X" (S754_infinity false) (S754_zero false) w
  = (Raise OverflowError, w).
Proof.
  intros w. split.
  - apply (non_finite_price_raises Examples.cfg50 "X" S754_nan (S754_zero false) w);
      reflexivity.
  - apply (non_finite_price_raises Examples.cfg50 "X" (S754_infinity false)
             (S754_zero false) w); reflexivity.
Defined.

(** X5. With a finite non-zero step, a zero price (of either sign) is on
    level 0. *)
Theorem zero_price_is_level_zero (cfg : config) (ltp : float) :
  is_finite (LEVEL_STEP_POINTS cfg) && negb (is_zero (LEVEL_STEP_POINTS cfg)) = true ->
  is_zero ltp = true ->
  level_of cfg ltp = Ok 0.
Proof.
  intros Hs Hp. unfold level_of, grid_value, truediv.
  destruct (LEVEL_STEP_POINTS cfg) as [s|s| |s m e]; try done.
  destruct ltp as [s'|s'| |s' m' e']; try done.
Qed.

Lemma zero_price_is_level_zero_witness :
  level_of Examples.cfg50 (S754_zero true) = Ok 0.
Proof.
  apply (zero_price_is_level_zero Examples.cfg50 (S754_zero true)); reflexivity.
Defined.

Lemma quiet_for_each {A} (l : list A) (body : A -> M unit) :
  (forall x, quiet (body x)) -> quiet (for_each l body).
Proof.
  intros Hb. induction l as [|x l IH]; simpl; [apply quiet_ret|].
  apply quiet_bind; [apply Hb|]. by intros _.
Qed.

Lemma quiet_process_tick_no_level (cfg : config) (symbol : string) (ltp bv : float) :
  (exists e, level_of cfg ltp = Raise e) -> quiet (process_tick cfg symbol ltp bv).
Proof.
  intros [e He] w. unfold after.
  rewrite (process_tick_raises cfg symbol ltp bv w e He). simpl.
  split; [done|]. exists []. by rewrite app_nil_r.
Qed.

Lemma quiet_main_bot_no_level (cfg : config) (float_of_str : string -> option float)
    (n : nat) :
  (forall ltp, exists e, level_of cfg ltp = Raise e) ->
  quiet (main_bot cfg float_of_str n).
Proof.
  intros Hno. unfold main_bot.
  apply quiet_bind; [by apply quiet_emit|]. intros _.
  apply quiet_bind; [by apply quiet_send_telegram|]. intros _.
  induction n as [|n IH]; simpl; [apply quiet_ret|].
  apply quiet_bind; [|by intros _].
  unfold poll_cycle.
  apply quiet_bind; [|intros _; by apply quiet_emit].
  apply quiet_try_except.
  - apply quiet_bind; [apply quiet_fetch_quotes|]. intros quotes.
    apply quiet_for_each. intros k. unfold process_symbol.
    apply quiet_bind; [apply quiet_lift|]. intros q.
    destruct (negb (truthy q)); [apply quiet_ret|].
    apply quiet_bind; [apply quiet_lift|]. intros ltp.
    apply quiet_bind; [apply quiet_lift|]. intros qty.
    destruct (is_None ltp); [apply quiet_ret|].
    apply quiet_bind; [apply quiet_lift|]. intros price.
    apply quiet_bind; [apply quiet_lift|]. intros volume.
    by apply quiet_process_tick_no_level.
  - intros e. by apply quiet_emit.
  - intros []. apply quiet_ret.
Qed.

(** X3. With a step that is zero, infinite or not a number, every call to
    [process_tick] raises and does nothing, so however long the bot runs
    it stores no level and sends no alert. *)
Theorem unusable_step_never_alerts
    (cfg : config) (float_of_str : string -> option float) (n : nat) (w : world) :
  is_finite (LEVEL_STEP_POINTS cfg) && negb (is_zero (LEVEL_STEP_POINTS cfg)) = false ->
  (forall symbol ltp bv w0,
     exists e, process_tick cfg symbol ltp bv w0 = (Raise e, w0)) /\
  last_level_alert (after (main_bot cfg float_of_str n) w) = last_level_alert w /\
  alerts (events_since w (after (main_bot cfg float_of_str n) w)) = [].
Proof.
  intros Hs.
  assert (Hno : forall ltp, exists e, level_of cfg ltp = Raise e)
    by (intros ltp; by apply unusable_step_no_level).
  split.
  - intros symbol ltp bv w0. destruct (Hno ltp) as [e He].
    exists e. by apply process_tick_raises.
  - destruct (quiet_main_bot_no_level cfg float_of_str n Hno w) as (Hl & evs & Ht & Ha).
    split; [done|]. by rewrite (events_since_app _ _ _ Ht).
Qed.

Lemma unusable_step_never_alerts_witness :
  let cfg := Examples.cfg_step (S754_zero false) in
  let answer := Examples.success (JObj [("A", JObj [("last_price", JInt 100)])]%string) in
  let w := Examples.fresh [answer; answer] [true; true; true] in
  last_level_alert (after (main_bot cfg Examples.no_parser 2) w) = ∅ /\
  alerts (events_since w (after (main_bot cfg Examples.no_parser 2) w)) = [].
Proof.
  intros cfg answer w.
  apply (unusable_step_never_alerts cfg Examples.no_parser 2 w).
  reflexivity.
Defined.

(** ** [send_telegram] *)

Import Frame.

Lemma send_telegram_eq (cfg : config) (msg : text) (w : world) :
  send_telegram cfg msg w =
  if unset (TELEGRAM_BOT_TOKEN cfg) || unset (TELEGRAM_CHAT_ID cfg)
  then (Ok tt, logged [Print (TxtTelegramSkipped msg)] w)
  else match telegram w with
       | true :: _ => (Ok tt, posted msg w)
       | _ => (Ok tt, logged [Print TxtTelegramError] (posted msg w))
       end.
Proof.
  unfold send_telegram.
  destruct (unset (TELEGRAM_BOT_TOKEN cfg) || unset (TELEGRAM_CHAT_ID cfg)); [done|].
  unfold try_except, requests_post, posted, logged.
  by destruct (telegram w) as [|[] ?].
Qed.

Lemma gets_app (l1 l2 : list event) : gets (l1 ++ l2) = gets l1 ++ gets l2.
Proof. apply omap_app. Qed.

Lemma posts_app (l1 l2 : list event) : posts (l1 ++ l2) = posts l1 ++ posts l2.
Proof. apply omap_app. Qed.

(** X7. [send_telegram] never raises, whatever the Notifier answers. It
    touches neither the level map nor the Quote Source; it posts its
    message exactly once when both credentials are set and not at all
    otherwise, and never sends a request to the Quote Source. *)
Theorem send_telegram_never_raises (cfg : config) (msg : text) (w : world) :
  (send_telegram cfg msg w).1 = Ok tt /\
  last_level_alert (after (send_telegram cfg msg) w) = last_level_alert w /\
  upstox (after (send_telegram cfg msg) w) = upstox w /\
  posts (events_since w (after (send_telegram cfg msg) w))
  = (if unset (TELEGRAM_BOT_TOKEN cfg) || unset (TELEGRAM_CHAT_ID cfg)
     then [] else [msg]) /\
  gets (events_since w (after (send_telegram cfg msg) w)) = [].
Proof.
  unfold after. rewrite send_telegram_eq.
  destruct (unset (TELEGRAM_BOT_TOKEN cfg) || unset (TELEGRAM_CHAT_ID cfg)).
  - simpl. by rewrite (events_since_app w _ [Print (TxtTelegramSkipped msg)]).
  - destruct (telegram w) as [|[] ?]; simpl.
    + rewrite (events_since_app w _ [HttpPost msg; Print TxtTelegramError]); [done|].
      simpl. by rewrite <- app_assoc.
    + by rewrite (events_since_app w _ [HttpPost msg]).
    + rewrite (events_since_app w _ [HttpPost msg; Print TxtTelegramError]); [done|].
      simpl. by rewrite <- app_assoc.
Qed.

(** ** [fetch_quotes] *)

(** [fetch_quotes], one case per path through its body. *)
Lemma fetch_quotes_eq (cfg : config) (keys : string) (w : world) :
  fetch_quotes cfg keys w =
  if unset (UPSTOX_ACCESS_TOKEN cfg)
  then (Ok (JObj []), logged [Print TxtTokenNotSet] w)
  else
    match upstox w with
    | [] | ConnectionFailed :: _ =>
        (Ok (JObj []), logged [Print TxtRequestError] (requested keys w))
    | Response status_code json :: _ =>
        if status_code =? 401
        then (Ok (JObj []),
              after (send_telegram cfg TxtTokenInvalid)
                    (logged [Print TxtUnauthorized] (requested keys w)))
        else
          match json with
          | None => (Ok (JObj []), logged [Print TxtJsonDecodeError] (requested keys w))
          | Some (JObj members) =>
              if differs_from_str (default JNull (assoc "status" members)) "success"
              then (Ok (JObj []),
                    logged [Print (TxtUpstoxError (JObj members))] (requested keys w))
              else (Ok (default (JObj []) (assoc "data" members)), requested keys w)
          | Some _ => (Raise AttributeError, requested keys w)
          end
    end.
Proof.
  unfold fetch_quotes.
  destruct (unset (UPSTOX_ACCESS_TOKEN cfg)); [done|].
  unfold try_except, requests_get, requested, after.
  destruct (upstox w) as [|[|status_code json] rest]; try done.
  simpl. destruct (status_code =? 401).
  - unfold mbind, M_bind, print, emit. simpl.
    destruct (send_telegram_run cfg TxtTokenInvalid
                (logged [Print TxtUnauthorized]
                   {| last_level_alert := last_level_alert w;
                      trace := trace w ++ [HttpGet keys];
                      upstox := rest;
                      telegram := telegram w |}))
      as (w1 & evs & E & _).
    unfold logged in *. simpl in *. by rewrite E.
  - destruct json as [data|]; [|done].
    destruct data; try done.
    unfold mbind, M_bind, lift. simpl.
    by destruct (differs_from_str _ _).
Qed.

Lemma send_telegram_events (cfg : config) (msg : text) (w : world) :
  exists evs,
    trace (after (send_telegram cfg msg) w) = trace w ++ evs /\
    gets evs = [] /\
    posts evs = (if unset (TELEGRAM_BOT_TOKEN cfg) || unset (TELEGRAM_CHAT_ID cfg)
                 then [] else [msg]) /\
    last_level_alert (after (send_telegram cfg msg) w) = last_level_alert w /\
    upstox (after (send_telegram cfg msg) w) = upstox w.
Proof.
  unfold after. rewrite send_telegram_eq.
  destruct (unset (TELEGRAM_BOT_TOKEN cfg) || unset (TELEGRAM_CHAT_ID cfg)).
  - by exists [Print (TxtTelegramSkipped msg)].
  - destruct (telegram w) as [|[] ?]; simpl.
    + exists [HttpPost msg; Print TxtTelegramError]. by rewrite <- app_assoc.
    + by exists [HttpPost msg].
    + exists [HttpPost msg; Print TxtTelegramError]. by rewrite <- app_assoc.
Qed.

Lemma status_is_success (o : option value) :
  differs_from_str (default JNull o) "success" = false <-> o = Some (JStr "success").
Proof.
  destruct o as [[| | | |s| |]|]; simpl; try (split; [done|by intros [=]]).
  case_bool_decide as E; simpl; split; try done.
  - intros _. by rewrite E.
  - intros [= ->]. done.
Qed.

(** X8. A request that fails to connect, and a response (other than 401)
    whose body does not decode, both make [fetch_quotes] return the empty
    mapping: one request sent, one line printed, nothing sent to the
    Notifier, the level map untouched. *)
Theorem fetch_quotes_transient_failure (cfg : config) (keys : string) (w : world) :
  unset (UPSTOX_ACCESS_TOKEN cfg) = false ->
  (head (upstox w) = None \/ head (upstox w) = Some ConnectionFailed ->
     fetch_quotes cfg keys w
     = (Ok (JObj []), logged [Print TxtRequestError] (requested keys w))) /\
  (forall status_code,
     head (upstox w) = Some (Response status_code None) -> status_code ≠ 401 ->
     fetch_quotes cfg keys w
     = (Ok (JObj []), logged [Print TxtJsonDecodeError] (requested keys w))).
Proof.
  intros Htok. rewrite fetch_quotes_eq, Htok. split.
  - intros [H|H]; destruct (upstox w) as [|[|sc json] rest]; simpl in H; congruence.
  - intros sc H Hsc. destruct (upstox w) as [|[|sc' json] rest]; simpl in H; try done.
    injection H as -> ->. by rewrite (proj2 (Z.eqb_neq sc 401) Hsc).
Qed.

Lemma fetch_quotes_transient_failure_witness :
  fetch_quotes Examples.cfg50 "A,B" (Examples.fresh [] [])
  = (Ok (JObj []),
     logged [Print TxtRequestError] (requested "A,B" (Examples.fresh [] []))) /\
  fetch_quotes Examples.cfg50 "A,B" (Examples.fresh [Response 502 None] [])
  = (Ok (JObj []),
     logged [Print TxtJsonDecodeError]
       (requested "A,B" (Examples.fresh [Response 502 None] []))).
Proof.
  split.
  - apply (fetch_quotes_transient_failure Examples.cfg50 "A,B" (Examples.fresh [] []));
      [reflexivity|left; reflexivity].
  - apply (fetch_quotes_transient_failure Examples.cfg50 "A,B"
             (Examples.fresh [Response 502 None] []) eq_refl) with (status_code := 502);
      [reflexivity|lia].
Defined.

(** X9. A response whose body is a JSON object is judged by its [status]
    member alone, whatever its status code other than 401: with the string
    ["success"] the [data] member is returned as it is (the empty mapping
    when there is none); with anything else, or no [status] at all, the
    answer is printed and the empty mapping returned. *)
Theorem fetch_quotes_judges_by_status
    (cfg : config) (keys : string) (w : world)
    (status_code : Z) (members : list (string * value)) :
  unset (UPSTOX_ACCESS_TOKEN cfg) = false ->
  head (upstox w) = Some (Response status_code (Some (JObj members))) ->
  status_code ≠ 401 ->
  (assoc "status" members = Some (JStr "success") ->
     fetch_quotes cfg keys w
     = (Ok (default (JObj []) (assoc "data" members)), requested keys w)) /\
  (assoc "status" members ≠ Some (JStr "success") ->
     fetch_quotes cfg keys w
     = (Ok (JObj []),
        logged [Print (TxtUpstoxError (JObj members))] (requested keys w))).
Proof.
  intros Htok H Hsc. rewrite fetch_quotes_eq, Htok.
  destruct (upstox w) as [|[|sc' json] rest]; simpl in H; try done.
  injection H as -> ->. rewrite (proj2 (Z.eqb_neq status_code 401) Hsc).
  destruct (differs_from_str (default JNull (assoc "status" members)) "success") eqn:E.
  - split; [|done]. intros Hs. apply status_is_success in Hs. congruence.
  - split; [done|]. intros Hs. by apply status_is_success in E.
Qed.

Lemma fetch_quotes_judges_by_status_witness :
  let quotes := JObj [("A", JObj [("last_price", JInt 100)])]%string in
  let ok := [("status", JStr "success"); ("data", quotes)]%string in
  let ko := [("status", JStr "error"); ("data", quotes)]%string in
  fetch_quotes Examples.cfg50 "A,B" (Examples.fresh [Response 500 (Some (JObj ok))] [])
  = (Ok quotes, requested "A,B" (Examples.fresh [Response 500 (Some (JObj ok))] [])) /\
  fetch_quotes Examples.cfg50 "A,B" (Examples.fresh [Response 200 (Some (JObj ko))] [])
  = (Ok (JObj []),
     logged [Print (TxtUpstoxError (JObj ko))]
       (requested "A,B" (Examples.fresh [Response 200 (Some (JObj ko))] []))).
Proof.
  intros quotes ok ko. split.
  - apply (fetch_quotes_judges_by_status Examples.cfg50 "A,B"
             (Examples.fresh [Response 500 (Some (JObj ok))] []) 500 ok);
      [reflexivity|reflexivity|lia|reflexivity].
  - apply (fetch_quotes_judges_by_status Examples.cfg50 "A,B"
             (Examples.fresh [Response 200 (Some (JObj ko))] []) 200 ko);
      [reflexivity|reflexivity|lia|discriminate].
Defined.

(** X10. [fetch_quotes] lets exactly one failure out: a response, other
    than 401, whose body decodes to something that is not a JSON object.
    It then raises [AttributeError], after the request and before any
    line is printed. *)
Theorem fetch_quotes_raises_iff_not_object
    (cfg : config) (keys : string) (w w' : world) (e : exn) :
  fetch_quotes cfg keys w = (Raise e, w') <->
  unset (UPSTOX_ACCESS_TOKEN cfg) = false /\
  (exists status_code data,
     head (upstox w) = Some (Response status_code (Some data)) /\
     status_code ≠ 401 /\
     forall members, data ≠ JObj members) /\
  e = AttributeError /\
  w' = requested keys w.
Proof.
  rewrite fetch_quotes_eq.
  destruct (unset (UPSTOX_ACCESS_TOKEN cfg)).
  { split; [done|]. by intros [? _]. }
  destruct (upstox w) as [|[|sc json] rest]; simpl.
  - split; [done|]. by intros (_ & (? & ? & ? & _) & _).
  - split; [done|]. by intros (_ & (? & ? & ? & _) & _).
  - destruct (Z.eqb_spec sc 401) as [->|Hsc].
    { split; [done|]. intros (_ & (? & ? & [= <- _] & ? & _) & _). done. }
    destruct json as [data|].
    2:{ split; [done|]. by intros (_ & (? & ? & ? & _) & _). }
    destruct data;
      try (split;
           [ intros [= <- <-]; split_and!; try done; by eexists _, _
           | by intros (_ & _ & -> & ->) ]).
    destruct (differs_from_str _ _);
      (split; [done|]; intros (_ & (? & ? & [= <- <-] & _ & Hno) & _);
       by destruct (Hno members)).
Qed.

Lemma fetch_quotes_raises_iff_not_object_witness :
  let w := Examples.fresh [Response 200 (Some (JArr []))] [] in
  fetch_quotes Examples.cfg50 "A,B" w = (Raise AttributeError, requested "A,B" w).
Proof.
  intros w.
  apply (fetch_quotes_raises_iff_not_object Examples.cfg50 "A,B" w
           (requested "A,B" w) AttributeError).
  split_and!; try reflexivity.
  exists 200, (JArr []). split_and!; [reflexivity|lia|discriminate].
Defined.

Lemma fetch_quotes_requests (cfg : config) (keys : string) (w : world) :
  gets (events_since w (after (fetch_quotes cfg keys) w))
  = (if unset (UPSTOX_ACCESS_TOKEN cfg) then [] else [keys]) /\
  upstox (after (fetch_quotes cfg keys) w)
  = (if unset (UPSTOX_ACCESS_TOKEN cfg) then upstox w else tail (upstox w)) /\
  last_level_alert (after (fetch_quotes cfg keys) w) = last_level_alert w.
Proof.
  unfold after at 1 2 3. rewrite fetch_quotes_eq.
  destruct (unset (UPSTOX_ACCESS_TOKEN cfg)).
  { simpl. by rewrite (events_since_app w _ [Print TxtTokenNotSet]). }
  assert (Hone : forall line,
    gets (events_since w (logged [Print line] (requested keys w))) = [keys]).
  { intros line.
    rewrite (events_since_app w _ [HttpGet keys; Print line]); [done|].
    simpl. by rewrite <- app_assoc. }
  destruct (upstox w) as [|[|code json] rest] eqn:Hup; simpl; rewrite ?Hup; simpl;
    try by rewrite Hone.
  destruct (code =? 401).
  - simpl.
    destruct (send_telegram_events cfg TxtTokenInvalid
                (logged [Print TxtUnauthorized] (requested keys w)))
      as (evs & Ht & Hg & _ & Hl & Hu).
    rewrite Hl, Hu. simpl. rewrite Hup. simpl.
    rewrite (events_since_app w _ ([HttpGet keys; Print TxtUnauthorized] ++ evs)).
    + by rewrite gets_app, Hg.
    + rewrite Ht. simpl. by rewrite <- !app_assoc.
  - destruct json as [[| | | | | |members]|]; simpl; rewrite ?Hup; simpl;
      try (by rewrite (events_since_app w _ [HttpGet keys])); try by rewrite Hone.
    destruct (differs_from_str _ _); simpl; rewrite ?Hup; simpl;
      [by rewrite Hone|by rewrite (events_since_app w _ [HttpGet keys])].
Qed.

(** X11. [fetch_quotes] sends exactly one request, for the keys it was
    given, and takes one answer when the token is set, and none otherwise;
    either way it leaves the level map as it was. *)
Theorem fetch_quotes_one_request (cfg : config) (keys : string) (w : world) :
  gets (events_since w (after (fetch_quotes cfg keys) w))
  = (if unset (UPSTOX_ACCESS_TOKEN cfg) then [] else [keys]) /\
  upstox (after (fetch_quotes cfg keys) w)
  = (if unset (UPSTOX_ACCESS_TOKEN cfg) then upstox w else tail (upstox w)) /\
  last_level_alert (after (fetch_quotes cfg keys) w) = last_level_alert w.
Proof. apply fetch_quotes_requests. Qed.

(** ** The loop and its sleep *)

Import Loop.

Lemma poll_body_total (cfg : config) (float_of_str : string -> option float) (w : world) :
  exists w', poll_body cfg float_of_str w = (Ok tt, w').
Proof.
  unfold poll_body, try_except.
  destruct ((quotes ← fetch_quotes cfg (joined_keys cfg);
             for_each (keys_list cfg) (process_symbol cfg float_of_str quotes)) w)
    as [[[]|e] w1]; simpl; eauto.
Qed.

Lemma poll_cycle_is_body_then_sleep
    (cfg : config) (float_of_str : string -> option float) (w : world) :
  poll_cycle cfg float_of_str w
  = (Ok tt, logged [Sleep] (after (poll_body cfg float_of_str) w)).
Proof.
  unfold poll_cycle, after. fold (poll_body cfg float_of_str).
  unfold mbind, M_bind.
  by destruct (poll_body_total cfg float_of_str w) as [w1 ->].
Qed.

Lemma loop_is_poll_cycles (cfg : config) (float_of_str : string -> option float)
    (time_sleep : float -> res unit) (secs : float) (n : nat) (w : world) :
  time_sleep secs = Ok tt ->
  loop cfg float_of_str time_sleep secs n w = poll_cycles cfg float_of_str n w.
Proof.
  intros Hs. revert w. induction n as [|n IH]; intros w; simpl; [done|].
  unfold mbind, M_bind. rewrite poll_cycle_is_body_then_sleep. unfold after.
  destruct (poll_body_total cfg float_of_str w) as [w1 ->]. simpl.
  unfold sleep, mbind, M_bind, lift. rewrite Hs. simpl. apply IH.
Qed.

(** X12. As long as [time.sleep] returns normally for the configured
    interval, nothing that happens inside an iteration ends the loop: the
    bot started with the interval runs exactly as [main_bot] does, and
    after any number of iterations it has returned without an exception. *)
Theorem loop_survives_every_cycle
    (cfg : config) (float_of_str : string -> option float)
    (time_sleep : float -> res unit) (secs : float) (n : nat) (w : world) :
  time_sleep secs = Ok tt ->
  main_bot_timed cfg float_of_str time_sleep secs n w = main_bot cfg float_of_str n w /\
  (main_bot_timed cfg float_of_str time_sleep secs n w).1 = Ok tt.
Proof.
  intros Hs.
  assert (E : main_bot_timed cfg float_of_str time_sleep secs n w
              = main_bot cfg float_of_str n w).
  { unfold main_bot_timed, main_bot, mbind, M_bind.
    destruct (print TxtStarted w) as [[[]|e] w1]; [|done].
    destruct (send_telegram cfg TxtStarted w1) as [[[]|e] w2]; [|done].
    by apply loop_is_poll_cycles. }
  split; [done|]. rewrite E.
  unfold main_bot, mbind, M_bind, print, emit.
  destruct (send_telegram_run cfg TxtStarted (logged [Print TxtStarted] w))
    as (w2 & evs & Hrun & _).
  unfold logged in Hrun. rewrite Hrun.
  by destruct (poll_cycles_total cfg float_of_str n w2) as [w3 ->].
Qed.

Lemma loop_survives_every_cycle_witness :
  let w := Examples.fresh [Examples.success Examples.quotes_bad_depth; ConnectionFailed]
             [true; true] in
  main_bot_timed Examples.cfg50 Examples.no_parser (fun _ => Ok tt) (Examples.dyadic 1 0) 3 w
  = main_bot Examples.cfg50 Examples.no_parser 3 w /\
  (main_bot_timed Examples.cfg50 Examples.no_parser (fun _ => Ok tt)
     (Examples.dyadic 1 0) 3 w).1 = Ok tt.
Proof.
  intros w.
  apply (loop_survives_every_cycle Examples.cfg50 Examples.no_parser
           (fun _ => Ok tt) (Examples.dyadic 1 0) 3 w).
  reflexivity.
Defined.

(** X13. The call to [time.sleep] is outside the [try] statement: when it
    raises for the configured interval, the exception ends [main_bot].
    The bot has then started up and gone through the body of its first
    iteration, and nothing more. *)
Theorem sleep_failure_ends_the_bot
    (cfg : config) (float_of_str : string -> option float)
    (time_sleep : float -> res unit) (secs : float) (e : exn) (n : nat) (w : world) :
  time_sleep secs = Raise e ->
  main_bot_timed cfg float_of_str time_sleep secs (S n) w
  = (Raise e,
     after (poll_body cfg float_of_str)
       (after (send_telegram cfg TxtStarted) (logged [Print TxtStarted] w))).
Proof.
  intros Hs.
  unfold main_bot_timed, mbind, M_bind, print, emit, after.
  fold (logged [Print TxtStarted] w).
  destruct (send_telegram_run cfg TxtStarted (logged [Print TxtStarted] w))
    as (w2 & evs & -> & _).
  simpl. unfold mbind, M_bind.
  destruct (poll_body_total cfg float_of_str w2) as [w3 ->]. simpl.
  unfold sleep, mbind, M_bind, lift. by rewrite Hs.
Qed.

Lemma sleep_failure_ends_the_bot_witness :
  let w := Examples.fresh [ConnectionFailed; ConnectionFailed] [true] in
  let time_sleep := fun secs : float =>
    if SFltb secs (S754_zero false) then Raise ValueError else Ok tt in
  main_bot_timed Examples.cfg50 Examples.no_parser time_sleep (Examples.dyadic (-1) 0) 5 w
  = (Raise ValueError,
     after (poll_body Examples.cfg50 Examples.no_parser)
       (after (send_telegram Examples.cfg50 TxtStarted) (logged [Print TxtStarted] w))).
Proof.
  intros w time_sleep.
  apply (sleep_failure_ends_the_bot Examples.cfg50 Examples.no_parser time_sleep
           (Examples.dyadic (-1) 0) ValueError 4 w).
  reflexivity.
Defined.

(** ** What a whole run leaves alone *)

Section Stable.

Context (R : relation world) `{!PreOrder R}.

Lemma stable_ret {A} (a : A) : stable R (mret a : M A).
Proof. intros w. reflexivity. Qed.

Lemma stable_lift {A} (r : res A) : stable R (lift r).
Proof. intros w. reflexivity. Qed.

Lemma stable_get_level (symbol : string) : stable R (get_level symbol).
Proof. intros w. reflexivity. Qed.

Lemma stable_bind {A B} (m : M A) (k : A -> M B) :
  stable R m -> (forall a, stable R (k a)) -> stable R (m ≫= k).
Proof.
  intros Hm Hk w. rewrite after_bind.
  specialize (Hm w). unfold after in Hm.
  destruct (m w) as [[a|e] w1]; simpl in *; [|done].
  trans w1; [done|apply Hk].
Qed.

Lemma stable_try_except {A B} (body : M A) (handler : exn -> M B) (rest : A -> M B) :
  stable R body -> (forall e, stable R (handler e)) -> (forall a, stable R (rest a)) ->
  stable R (try_except body handler rest).
Proof.
  intros Hb Hh Hr w. rewrite after_try_except.
  specialize (Hb w). unfold after in Hb.
  destruct (body w) as [[a|e] w1]; simpl in *;
    (trans w1; [done|]); [apply Hr|apply Hh].
Qed.

Lemma stable_for_each {A} (l : list A) (body : A -> M unit) :
  (forall x, x ∈ l -> stable R (body x)) -> stable R (for_each l body).
Proof.
  induction l as [|x l IH]; intros Hb; simpl; [apply stable_ret|].
  apply stable_bind; [apply Hb; left|].
  intros _. apply IH. intros y Hy. apply Hb. by right.
Qed.

Variable cfg : config.
Variable float_of_str : string -> option float.

Hypothesis Hprint : forall t, (forall msg, t ≠ TxtTelegramSkipped msg) -> stable R (print t).
Hypothesis Hsleep : stable R (emit Sleep).
Hypothesis Halert :
  forall k ltp level bv, k ∈ keys_list cfg ->
    stable R (send_telegram cfg (TxtAlert k ltp level bv)).
Hypothesis Hset : forall k level, k ∈ keys_list cfg -> stable R (set_level k level).

Lemma stable_process_tick (k : string) (ltp bv : float) :
  k ∈ keys_list cfg -> stable R (process_tick cfg k ltp bv).
Proof.
  intros Hk. unfold process_tick.
  apply stable_bind; [apply stable_lift|]. intros level.
  apply stable_bind; [apply stable_get_level|]. intros prev.
  case_bool_decide; [|apply stable_ret].
  apply stable_bind; [by apply Hset|]. intros _.
  apply stable_bind; [by apply Hprint|]. intros _.
  by apply Halert.
Qed.

Lemma stable_process_symbol (quotes : value) (k : string) :
  k ∈ keys_list cfg -> stable R (process_symbol cfg float_of_str quotes k).
Proof.
  intros Hk. unfold process_symbol.
  apply stable_bind; [apply stable_lift|]. intros q.
  destruct (negb (truthy q)); [apply stable_ret|].
  apply stable_bind; [apply stable_lift|]. intros ltp.
  apply stable_bind; [apply stable_lift|]. intros qty.
  destruct (is_None ltp); [apply stable_ret|].
  apply stable_bind; [apply stable_lift|]. intros price.
  apply stable_bind; [apply stable_lift|]. intros volume.
  by apply stable_process_tick.
Qed.

Lemma stable_symbols (quotes : value) :
  stable R (for_each (keys_list cfg) (process_symbol cfg float_of_str quotes)).
Proof. apply stable_for_each. intros k Hk. by apply stable_process_symbol. Qed.

Hypothesis Hfetch : forall keys, stable R (fetch_quotes cfg keys).

Lemma stable_poll_cycle : stable R (poll_cycle cfg float_of_str).
Proof.
  unfold poll_cycle.
  apply stable_bind; [|by intros _].
  apply stable_try_except.
  - apply stable_bind; [apply Hfetch|]. intros quotes. apply stable_symbols.
  - intros e. by apply Hprint.
  - intros []. apply stable_ret.
Qed.

Lemma stable_poll_cycles (n : nat) : stable R (poll_cycles cfg float_of_str n).
Proof.
  induction n as [|n IH]; simpl; [apply stable_ret|].
  apply stable_bind; [apply stable_poll_cycle|]. by intros _.
Qed.

Hypothesis Hstart : stable R (send_telegram cfg TxtStarted).

Lemma stable_main_bot (n : nat) : stable R (main_bot cfg float_of_str n).
Proof.
  unfold main_bot.
  apply stable_bind; [by apply Hprint|]. intros _.
  apply stable_bind; [apply Hstart|]. intros _.
  apply stable_poll_cycles.
Qed.

End Stable.

(** [fetch_quotes] keeps what its request, its printed lines and its one
    message to the Notifier keep. *)
Lemma stable_fetch_quotes (R : relation world) `{!PreOrder R}
    (cfg : config) (keys : string) :
  (forall t, (forall msg, t ≠ TxtTelegramSkipped msg) -> stable R (print t)) ->
  stable R (requests_get keys) ->
  stable R (send_telegram cfg TxtTokenInvalid) ->
  stable R (fetch_quotes cfg keys).
Proof.
  intros Hprint Hget Hsend. unfold fetch_quotes.
  destruct (unset (UPSTOX_ACCESS_TOKEN cfg)).
  { apply stable_bind; [done|by apply Hprint|]. intros _. by apply stable_ret. }
  apply stable_try_except; [done|done| |].
  - intros e. apply stable_bind; [done|by apply Hprint|]. intros _. by apply stable_ret.
  - intros [|status_code json]; [by apply stable_ret|].
    destruct (status_code =? 401).
    { apply stable_bind; [done|by apply Hprint|]. intros _.
      apply stable_bind; [done|done|]. intros _. by apply stable_ret. }
    destruct json as [data|].
    + apply stable_bind; [done|by apply stable_lift|]. intros status.
      destruct (differs_from_str status "success"); [|by apply stable_lift].
      apply stable_bind; [done|by apply Hprint|]. intros _. by apply stable_ret.
    + apply stable_bind; [done|by apply Hprint|]. intros _. by apply stable_ret.
Qed.

(** *** Runs seen through what they add to the trace *)

Lemma adds_preorder (P : list event -> Prop) :
  P [] -> (forall l1 l2, P l1 -> P l2 -> P (l1 ++ l2)) -> PreOrder (adds P).
Proof.
  intros Hnil Happ. split.
  - intros w. exists []. by rewrite app_nil_r.
  - intros w1 w2 w3 (evs1 & H1 & P1) (evs2 & H2 & P2).
    exists (evs1 ++ evs2). split; [by rewrite H2, H1, <- app_assoc|by apply Happ].
Qed.

Lemma adds_events_since (P : list event -> Prop) (w w' : world) :
  adds P w w' -> P (events_since w w').
Proof. intros (evs & Ht & HP). by rewrite (events_since_app _ _ _ Ht). Qed.

Lemma adds_emit (P : list event -> Prop) (e : event) : P [e] -> stable (adds P) (emit e).
Proof. intros HP w. by exists [e]. Qed.

Lemma adds_requests_get (P : list event -> Prop) (keys : string) :
  P [HttpGet keys] -> stable (adds P) (requests_get keys).
Proof.
  intros HP w. exists [HttpGet keys]. split; [|done].
  unfold after, requests_get. by destruct (upstox w) as [|[] ?].
Qed.

Lemma adds_set_level (P : list event -> Prop) (symbol : string) (level : Z) :
  P [] -> stable (adds P) (set_level symbol level).
Proof. intros HP w. exists []. split; [|done]. simpl. by rewrite app_nil_r. Qed.

Lemma adds_send_telegram (P : list event -> Prop) (cfg : config) (msg : text) :
  (unset (TELEGRAM_BOT_TOKEN cfg) || unset (TELEGRAM_CHAT_ID cfg) = true ->
     P [Print (TxtTelegramSkipped msg)]) ->
  (unset (TELEGRAM_BOT_TOKEN cfg) || unset (TELEGRAM_CHAT_ID cfg) = false ->
     P [HttpPost msg] /\ P [HttpPost msg; Print TxtTelegramError]) ->
  stable (adds P) (send_telegram cfg msg).
Proof.
  intros Hskip Hpost w. unfold after. rewrite send_telegram_eq.
  destruct (unset (TELEGRAM_BOT_TOKEN cfg) || unset (TELEGRAM_CHAT_ID cfg)).
  - exists [Print (TxtTelegramSkipped msg)]. split; [done|by apply Hskip].
  - destruct (Hpost eq_refl) as [H1 H2].
    destruct (telegram w) as [|[] ?]; simpl.
    + exists [HttpPost msg; Print TxtTelegramError].
      split; [simpl; by rewrite <- app_assoc|done].
    + by exists [HttpPost msg].
    + exists [HttpPost msg; Print TxtTelegramError].
      split; [simpl; by rewrite <- app_assoc|done].
Qed.

Lemma no_gets_preorder : PreOrder (adds no_gets).
Proof.
  apply adds_preorder; [done|]. unfold no_gets.
  intros l1 l2 H1 H2. by rewrite gets_app, H1, H2.
Qed.

Lemma no_posts_preorder : PreOrder (adds no_posts).
Proof.
  apply adds_preorder; [done|]. unfold no_posts.
  intros l1 l2 H1 H2. by rewrite posts_app, H1, H2.
Qed.

Lemma alerts_within_preorder (symbols : list string) :
  PreOrder (adds (alerts_within symbols)).
Proof.
  apply adds_preorder; [by constructor|]. unfold alerts_within.
  intros l1 l2 H1 H2. rewrite alerts_app. by apply Forall_app.
Qed.

Lemma levels_within_preorder (symbols : list string) : PreOrder (levels_within symbols).
Proof.
  split.
  - intros w. split; [done|apply union_subseteq_l].
  - intros w1 w2 w3 [H1 H1'] [H2 H2']. split; [by trans (dom (last_level_alert w2))|].
    trans (dom (last_level_alert w2) ∪ list_to_set symbols); [done|].
    apply union_subseteq. split; [done|apply union_subseteq_r].
Qed.

(** X17. Whatever the Quote Source answers, every alert the bot sends is
    for one of the configured symbols. *)
Theorem alerts_only_for_configured_symbols
    (cfg : config) (float_of_str : string -> option float) (n : nat) (w : world) :
  Forall (fun a : string * Z => a.1 ∈ keys_list cfg)
    (alerts (events_since w (after (main_bot cfg float_of_str n) w))).
Proof.
  pose proof (alerts_within_preorder (keys_list cfg)) as HR.
  apply (adds_events_since (alerts_within (keys_list cfg))).
  assert (Hprint : forall t, (forall msg, t ≠ TxtTelegramSkipped msg) ->
                             stable (adds (alerts_within (keys_list cfg))) (print t)).
  { intros t Ht. apply adds_emit. unfold alerts_within, alerts, notifications.
    destruct t; simpl; try (by constructor). by destruct (Ht _ eq_refl). }
  assert (Hquiet : forall msg, alert_level msg = None ->
            stable (adds (alerts_within (keys_list cfg))) (send_telegram cfg msg)).
  { intros msg Hm. apply adds_send_telegram; intros _; [|split];
      unfold alerts_within, alerts; simpl; rewrite Hm; by constructor. }
  apply stable_main_bot; try done.
  - apply adds_emit. by constructor.
  - intros k ltp level bv Hk. apply adds_send_telegram; intros _; [|split];
      unfold alerts_within, alerts; simpl; by apply Forall_singleton.
  - intros k level Hk. apply adds_set_level. by constructor.
  - intros keys. apply stable_fetch_quotes; try done.
    + apply adds_requests_get. by constructor.
    + by apply Hquiet.
  - by apply Hquiet.
Qed.

(** X19. With the Notifier token or chat id unset or empty, the bot never
    posts anything, however long it runs and whatever it alerts about. *)
Theorem unconfigured_notifier_never_posts
    (cfg : config) (float_of_str : string -> option float) (n : nat) (w : world) :
  unset (TELEGRAM_BOT_TOKEN cfg) || unset (TELEGRAM_CHAT_ID cfg) = true ->
  posts (events_since w (after (main_bot cfg float_of_str n) w)) = [].
Proof.
  intros Hun.
  pose proof no_posts_preorder as HR.
  apply (adds_events_since no_posts).
  assert (Hsend : forall msg, stable (adds no_posts) (send_telegram cfg msg)).
  { intros msg. apply adds_send_telegram; [done|]. intros H. congruence. }
  apply stable_main_bot; try done.
  - intros t _. by apply adds_emit.
  - by apply adds_emit.
  - intros k level _. by apply adds_set_level.
  - intros keys. apply stable_fetch_quotes; try done.
    + intros t _. by apply adds_emit.
    + by apply adds_requests_get.
Qed.

Lemma unconfigured_notifier_never_posts_witness :
  let answer := Examples.success (JObj [("A", JObj [("last_price", JInt 100)])]%string) in
  let w := Examples.fresh [answer; Response 401 None] [true; true] in
  posts (events_since w (after (main_bot Examples.cfg_bare Examples.no_parser 2) w)) = [].
Proof.
  intros answer w.
  apply (unconfigured_notifier_never_posts Examples.cfg_bare Examples.no_parser 2 w).
  reflexivity.
Defined.

(** X16. The bot never removes an entry from the level map, and the
    entries it adds are for configured symbols only. *)
Theorem levels_only_for_configured_symbols
    (cfg : config) (float_of_str : string -> option float) (n : nat) (w : world) :
  dom (last_level_alert w)
    ⊆ dom (last_level_alert (after (main_bot cfg float_of_str n) w)) /\
  dom (last_level_alert (after (main_bot cfg float_of_str n) w))
    ⊆ dom (last_level_alert w) ∪ list_to_set (keys_list cfg).
Proof.
  pose proof (levels_within_preorder (keys_list cfg)) as HR.
  change (levels_within (keys_list cfg) w (after (main_bot cfg float_of_str n) w)).
  assert (Hsame : forall A (m : M A),
            (forall w0, last_level_alert (after m w0) = last_level_alert w0) ->
            stable (levels_within (keys_list cfg)) m).
  { intros A m Hm w0. unfold levels_within. rewrite Hm. split; set_solver. }
  assert (Hsend : forall msg, stable (levels_within (keys_list cfg)) (send_telegram cfg msg)).
  { intros msg. apply Hsame. intros w0.
    by destruct (send_telegram_events cfg msg w0) as (evs & _ & _ & _ & Hl & _). }
  apply stable_main_bot; try done.
  - intros t _. by apply Hsame.
  - by apply Hsame.
  - intros k level Hk w0. unfold levels_within, after. simpl.
    rewrite dom_insert_L. split; [set_solver|].
    apply union_subseteq. split; [|set_solver].
    apply singleton_subseteq_l, elem_of_union_r. by apply elem_of_list_to_set.
  - intros keys. apply Hsame. intros w0.
    by destruct (quiet_fetch_quotes cfg keys w0) as [Hl _].
Qed.

(** *** Requests per cycle *)

Lemma logged_logged (l1 l2 : list event) (w : world) :
  logged l2 (logged l1 w) = logged (l1 ++ l2) w.
Proof. unfold logged. simpl. by rewrite <- app_assoc. Qed.

Lemma adds_then_no_gets (l : list string) (w w1 w2 : world) :
  adds (fun evs => gets evs = l) w w1 -> adds no_gets w1 w2 ->
  adds (fun evs => gets evs = l) w w2.
Proof.
  intros (evs1 & H1 & G1) (evs2 & H2 & G2). exists (evs1 ++ evs2).
  split; [by rewrite H2, H1, <- app_assoc|].
  unfold no_gets in G2. by rewrite gets_app, G1, G2, app_nil_r.
Qed.

Lemma no_gets_symbols (cfg : config) (float_of_str : string -> option float)
    (quotes : value) :
  stable (adds no_gets) (for_each (keys_list cfg) (process_symbol cfg float_of_str quotes)).
Proof.
  pose proof no_gets_preorder as HR.
  apply stable_symbols; try done.
  - intros t _. by apply adds_emit.
  - intros k ltp level bv _. by apply adds_send_telegram.
  - intros k level _. by apply adds_set_level.
Qed.

Lemma poll_cycle_one_get (cfg : config) (float_of_str : string -> option float) (w : world) :
  unset (UPSTOX_ACCESS_TOKEN cfg) = false ->
  adds (fun evs => gets evs = [joined_keys cfg]) w (after (poll_cycle cfg float_of_str) w).
Proof.
  intros Htok.
  assert (Hfetch : adds (fun evs => gets evs = [joined_keys cfg]) w
                     (after (fetch_quotes cfg (joined_keys cfg)) w)).
  { destruct (quiet_fetch_quotes cfg (joined_keys cfg) w) as (_ & evs & Ht & _).
    exists evs. split; [done|].
    destruct (fetch_quotes_requests cfg (joined_keys cfg) w) as [Hg _].
    by rewrite (events_since_app _ _ _ Ht), Htok in Hg. }
  unfold after at 1. rewrite poll_cycle_is_body_then_sleep. simpl.
  apply adds_then_no_gets with (w1 := after (poll_body cfg float_of_str) w);
    [|by exists [Sleep]].
  unfold poll_body. rewrite after_try_except.
  unfold mbind at 1. unfold M_bind at 1. unfold after in Hfetch.
  destruct (fetch_quotes cfg (joined_keys cfg) w) as [[quotes|e] w1]; simpl in *.
  - pose proof (no_gets_symbols cfg float_of_str quotes w1) as Hsym. unfold after in Hsym.
    destruct (for_each (keys_list cfg) (process_symbol cfg float_of_str quotes) w1)
      as [[[]|e] w2]; simpl in *.
    + by apply adds_then_no_gets with (w1 := w1).
    + apply adds_then_no_gets with (w1 := w2); [|by exists [Print (TxtLoopError e)]].
      by apply adds_then_no_gets with (w1 := w1).
  - apply adds_then_no_gets with (w1 := w1); [done|].
    by exists [Print (TxtLoopError e)].
Qed.

(** X15. With the token set, every iteration sends exactly one request to
    the Quote Source, for all configured symbols together: after [n]
    iterations, [n] requests, each for the joined keys. *)
Theorem one_batched_request_per_cycle
    (cfg : config) (float_of_str : string -> option float) (n : nat) (w : world) :
  unset (UPSTOX_ACCESS_TOKEN cfg) = false ->
  gets (events_since w (after (poll_cycles cfg float_of_str n) w))
  = replicate n (joined_keys cfg).
Proof.
  intros Htok.
  apply (adds_events_since (fun evs => gets evs = replicate n (joined_keys cfg))).
  revert w. induction n as [|n IH]; intros w; simpl.
  - exists []. by rewrite app_nil_r.
  - rewrite after_bind.
    destruct (poll_cycle_one_get cfg float_of_str w Htok) as (evs1 & H1 & G1).
    unfold after in H1.
    destruct (poll_cycle_total cfg float_of_str w) as [w1 Hrun]. rewrite Hrun in *.
    simpl in H1. destruct (IH w1) as (evs2 & H2 & G2).
    exists (evs1 ++ evs2). split; [by rewrite H2, H1, <- app_assoc|].
    by rewrite gets_app, G1, G2.
Qed.

Lemma one_batched_request_per_cycle_witness :
  let w := Examples.fresh [Examples.success Examples.quotes_bad_depth; Response 401 None]
             [true; true] in
  gets (events_since w (after (poll_cycles Examples.cfg50 Examples.no_parser 3) w))
  = ["A,B"; "A,B"; "A,B"]%string.
Proof.
  intros w.
  apply (one_batched_request_per_cycle Examples.cfg50 Examples.no_parser 3 w).
  reflexivity.
Defined.

(** X18. With the Quote Source token unset or empty, the loop only prints
    its complaint and sleeps: [n] iterations leave the level map, the
    Quote Source and the Notifier untouched and send no request. *)
Theorem loop_without_token
    (cfg : config) (float_of_str : string -> option float) (n : nat) (w : world) :
  unset (UPSTOX_ACCESS_TOKEN cfg) = true ->
  poll_cycles cfg float_of_str n w
  = (Ok tt, logged (concat (replicate n [Print TxtTokenNotSet; Sleep])) w).
Proof.
  intros Htok. revert w. induction n as [|n IH]; intros w; simpl.
  - unfold logged. rewrite app_nil_r. by destruct w.
  - unfold mbind, M_bind.
    assert (E : poll_cycle cfg float_of_str w
                = (Ok tt, logged [Print TxtTokenNotSet; Sleep] w)).
    { rewrite poll_cycle_is_body_then_sleep. unfold after, poll_body, try_except.
      unfold mbind, M_bind. rewrite fetch_quotes_eq, Htok, for_each_empty_quotes.
      simpl. by rewrite logged_logged. }
    rewrite E, IH. by rewrite logged_logged.
Qed.

Lemma loop_without_token_witness :
  let w := Examples.fresh [Examples.success Examples.quotes_bad_depth] [true] in
  poll_cycles Examples.cfg_bare Examples.no_parser 2 w
  = (Ok tt, logged [Print TxtTokenNotSet; Sleep; Print TxtTokenNotSet; Sleep] w).
Proof.
  intros w.
  apply (loop_without_token Examples.cfg_bare Examples.no_parser 2 w).
  reflexivity.
Defined.

(** ** One batch of quotes *)

Import Batch.

(** The loop body reads the batch, then calls [process_tick] or not. *)
Lemma process_symbol_tick (cfg : config) (float_of_str : string -> option float)
    (quotes : value) (k : string) (w : world) :
  process_symbol cfg float_of_str quotes k w =
  match symbol_tick float_of_str quotes k with
  | Raise e => (Raise e, w)
  | Ok None => (Ok tt, w)
  | Ok (Some (price, volume)) => process_tick cfg k price volume w
  end.
Proof.
  unfold process_symbol, symbol_tick, mbind, M_bind, res_bind, lift.
  destruct (get quotes k JNull) as [q|e]; [|done].
  destruct (negb (truthy q)); [done|].
  destruct (quote_ltp q) as [ltp|e]; [|done].
  destruct (quote_buy_qty q) as [qty|e]; [|done].
  destruct (is_None ltp); [done|].
  destruct (to_float float_of_str ltp) as [price|e]; [|done].
  destruct (float_of_num qty) as [volume|e]; done.
Qed.

Lemma process_symbol_result (cfg : config) (float_of_str : string -> option float)
    (quotes : value) (k : string) (w : world) :
  (process_symbol cfg float_of_str quotes k w).1 = symbol_result cfg float_of_str quotes k.
Proof.
  rewrite process_symbol_tick. unfold symbol_result.
  destruct (symbol_tick float_of_str quotes k) as [[[price volume]|]|e]; try done.
  destruct (process_tick_cases cfg k price volume w)
    as [(e & -> & ->)|[(l & -> & _ & ->)|(l & w' & evs & -> & _ & -> & _)]]; done.
Qed.

Lemma process_symbol_levels (cfg : config) (float_of_str : string -> option float)
    (quotes : value) (k : string) (w : world) :
  last_level_alert (after (process_symbol cfg float_of_str quotes k) w) =
  match symbol_level cfg float_of_str quotes k with
  | Some level => <[k := level]> (last_level_alert w)
  | None => last_level_alert w
  end.
Proof.
  unfold after, symbol_level. rewrite process_symbol_tick.
  destruct (symbol_tick float_of_str quotes k) as [[[price volume]|]|e]; try done.
  fold (after (process_tick cfg k price volume) w). rewrite process_tick_levels.
  by destruct (level_of cfg price).
Qed.

(** A symbol whose level the map already holds is passed without effect. *)
Lemma settled_no_effect (cfg : config) (float_of_str : string -> option float)
    (quotes : value) (k : string) (w : world) :
  settled cfg float_of_str quotes k w ->
  process_symbol cfg float_of_str quotes k w
  = (symbol_result cfg float_of_str quotes k, w).
Proof.
  unfold settled, symbol_level, symbol_result. rewrite process_symbol_tick.
  destruct (symbol_tick float_of_str quotes k) as [[[price volume]|]|e]; try done.
  rewrite process_tick_run.
  destruct (level_of cfg price) as [level|e]; [|done].
  intros Hs. by rewrite bool_decide_eq_false_2 by (by intros []).
Qed.

Lemma settled_after_itself (cfg : config) (float_of_str : string -> option float)
    (quotes : value) (k : string) (w : world) :
  settled cfg float_of_str quotes k (after (process_symbol cfg float_of_str quotes k) w).
Proof.
  unfold settled. rewrite process_symbol_levels.
  destruct (symbol_level cfg float_of_str quotes k); [|done].
  apply lookup_insert_eq.
Qed.

Lemma settled_after_other (cfg : config) (float_of_str : string -> option float)
    (quotes : value) (k k' : string) (w : world) :
  settled cfg float_of_str quotes k w ->
  settled cfg float_of_str quotes k (after (process_symbol cfg float_of_str quotes k') w).
Proof.
  intros Hs. destruct (decide (k' = k)) as [->|Hne]; [apply settled_after_itself|].
  unfold settled in *. rewrite process_symbol_levels.
  destruct (symbol_level cfg float_of_str quotes k) as [level|]; [|done].
  destruct (symbol_level cfg float_of_str quotes k'); [|done].
  by rewrite lookup_insert_ne.
Qed.

Lemma settled_after_batch (cfg : config) (float_of_str : string -> option float)
    (quotes : value) (k : string) (keys : list string) (w : world) :
  settled cfg float_of_str quotes k w ->
  settled cfg float_of_str quotes k
    (after (for_each keys (process_symbol cfg float_of_str quotes)) w).
Proof.
  revert w. induction keys as [|k' keys IH]; intros w Hs; simpl; [done|].
  rewrite after_bind.
  pose proof (settled_after_other cfg float_of_str quotes k k' w Hs) as H1.
  unfold after in H1.
  destruct (process_symbol cfg float_of_str quotes k' w) as [[[]|e] w1]; simpl in *;
    [by apply IH|done].
Qed.

Lemma evaluated_settled (cfg : config) (float_of_str : string -> option float)
    (quotes : value) (keys : list string) (w : world) :
  Forall (fun k => settled cfg float_of_str quotes k
                     (after (for_each keys (process_symbol cfg float_of_str quotes)) w))
         (evaluated cfg float_of_str quotes keys).
Proof.
  revert w. induction keys as [|k keys IH]; intros w; simpl; [by constructor|].
  rewrite after_bind.
  pose proof (settled_after_itself cfg float_of_str quotes k w) as Hk.
  pose proof (process_symbol_result cfg float_of_str quotes k w) as Hr.
  unfold after in Hk.
  destruct (process_symbol cfg float_of_str quotes k w) as [r w1]; simpl in *.
  rewrite <- Hr. destruct r as [[]|e].
  - constructor; [by apply settled_after_batch|apply IH].
  - by repeat constructor.
Qed.

Lemma batch_of_settled (cfg : config) (float_of_str : string -> option float)
    (quotes : value) (keys : list string) (w : world) :
  Forall (fun k => settled cfg float_of_str quotes k w)
         (evaluated cfg float_of_str quotes keys) ->
  for_each keys (process_symbol cfg float_of_str quotes) w
  = (batch_result cfg float_of_str quotes keys, w).
Proof.
  induction keys as [|k keys IH]; simpl; [done|].
  unfold mbind, M_bind.
  destruct (symbol_result cfg float_of_str quotes k) as [[]|e] eqn:Hr.
  - intros [Hk Hrest]%Forall_cons. rewrite (settled_no_effect _ _ _ _ _ Hk), Hr.
    by apply IH.
  - intros [Hk _]%Forall_cons. by rewrite (settled_no_effect _ _ _ _ _ Hk), Hr.
Qed.

Lemma batch_result_is_result (cfg : config) (float_of_str : string -> option float)
    (quotes : value) (keys : list string) (w : world) :
  (for_each keys (process_symbol cfg float_of_str quotes) w).1
  = batch_result cfg float_of_str quotes keys.
Proof.
  revert w. induction keys as [|k keys IH]; intros w; simpl; [done|].
  unfold mbind, M_bind.
  pose proof (process_symbol_result cfg float_of_str quotes k w) as Hr.
  destruct (process_symbol cfg float_of_str quotes k w) as [r w1]; simpl in *.
  rewrite <- Hr. destruct r as [[]|e]; [apply IH|done].
Qed.

(** X22. Going through the same batch of quotes a second time does nothing
    at all: the second pass over the symbols ends as the first one did
    (normally, or with the same exception) and leaves the state the first
    one left, with no level stored, no line printed and no alert sent. *)
Theorem repeated_batch_is_silent
    (cfg : config) (float_of_str : string -> option float)
    (quotes : value) (keys : list string) (w : world) :
  for_each keys (process_symbol cfg float_of_str quotes)
    (after (for_each keys (process_symbol cfg float_of_str quotes)) w)
  = ((for_each keys (process_symbol cfg float_of_str quotes) w).1,
     after (for_each keys (process_symbol cfg float_of_str quotes)) w).
Proof.
  rewrite batch_result_is_result.
  apply batch_of_settled, evaluated_settled.
Qed.

(** X21. When the evaluation of a symbol raises, it has done nothing: the
    state is the one before that symbol. So a [for] loop that raises leaves
    exactly what the symbols before the failing one left. *)
Theorem symbol_failure_is_clean
    (cfg : config) (float_of_str : string -> option float)
    (quotes : value) (keys : list string) (w w' : world) (e : exn) :
  (forall k, process_symbol cfg float_of_str quotes k w = (Raise e, w') -> w' = w) /\
  (for_each keys (process_symbol cfg float_of_str quotes) w = (Raise e, w') ->
   exists pre k post,
     keys = pre ++ k :: post /\
     for_each pre (process_symbol cfg float_of_str quotes) w = (Ok tt, w') /\
     process_symbol cfg float_of_str quotes k w' = (Raise e, w')).
Proof.
  assert (Hone : forall k w0 w1 e0,
            process_symbol cfg float_of_str quotes k w0 = (Raise e0, w1) -> w1 = w0).
  { intros k w0 w1 e0. rewrite process_symbol_tick.
    destruct (symbol_tick float_of_str quotes k) as [[[price volume]|]|e1];
      [|done|by intros [= _ ->]].
    destruct (process_tick_cases cfg k price volume w0)
      as [(e1 & _ & ->)|[(l & _ & _ & ->)|(l & w2 & evs & _ & _ & -> & _)]];
      [by intros [= _ ->]|done|done]. }
  split; [intros k Hk; by apply (Hone k w w' e)|].
  revert w. induction keys as [|k keys IH]; intros w; simpl; [done|].
  unfold mbind, M_bind.
  destruct (process_symbol cfg float_of_str quotes k w) as [[[]|e1] w1] eqn:Hk.
  - intros Hrest. destruct (IH w1 Hrest) as (pre & k' & post & -> & Hpre & Hk').
    exists (k :: pre), k', post. split; [done|]. split; [|done].
    simpl. unfold mbind, M_bind. by rewrite Hk.
  - intros [= -> ->]. pose proof (Hone _ _ _ _ Hk) as ->.
    by exists [], k, keys.
Qed.

Lemma symbol_failure_is_clean_witness :
  let w := Examples.fresh [] [true; true] in
  let pass := for_each ["B"; "A"; "B"]%string
                (process_symbol Examples.cfg50 Examples.no_parser Examples.quotes_bad_depth) in
  exists pre k post,
    ["B"; "A"; "B"]%string = pre ++ k :: post /\
    for_each pre (process_symbol Examples.cfg50 Examples.no_parser Examples.quotes_bad_depth) w
    = (Ok tt, after pass w) /\
    process_symbol Examples.cfg50 Examples.no_parser Examples.quotes_bad_depth k (after pass w)
    = (Raise TypeError, after pass w).
Proof.
  intros w pass.
  apply (symbol_failure_is_clean Examples.cfg50 Examples.no_parser
           Examples.quotes_bad_depth ["B"; "A"; "B"]%string w (after pass w) TypeError).
  vm_compute. reflexivity.
Defined.

(** X14. A configured symbol for which the batch has no quote, or a falsy
    one, changes nothing for the others: the pass over the symbols is the
    pass over the symbols without it. *)
Theorem missing_symbol_is_skipped
    (cfg : config) (float_of_str : string -> option float)
    (quotes q : value) (pre post : list string) (k : string) (w : world) :
  get quotes k JNull = Ok q -> truthy q = false ->
  for_each (pre ++ k :: post) (process_symbol cfg float_of_str quotes) w
  = for_each (pre ++ post) (process_symbol cfg float_of_str quotes) w.
Proof.
  intros Hq Ht. rewrite !for_each_app.
  destruct (for_each pre (process_symbol cfg float_of_str quotes) w) as [[[]|e] w1];
    [|done].
  simpl. unfold mbind, M_bind.
  by rewrite (process_symbol_skip cfg float_of_str quotes q k w1 Hq Ht).
Qed.

Lemma missing_symbol_is_skipped_witness :
  let quotes := JObj [("A", JObj [("last_price", JInt 100)]);
                      ("C", JObj [("last_price", JInt 160)])]%string in
  let w := Examples.fresh [] [true; true] in
  for_each ["A"; "B"; "C"]%string (process_symbol Examples.cfg50 Examples.no_parser quotes) w
  = for_each ["A"; "C"]%string (process_symbol Examples.cfg50 Examples.no_parser quotes) w.
Proof.
  intros quotes w.
  apply (missing_symbol_is_skipped Examples.cfg50 Examples.no_parser quotes JNull
           ["A"%string] ["C"%string] "B" w); reflexivity.
Defined.

Lemma quiet_symbols_without_batch (cfg : config) (float_of_str : string -> option float)
    (quotes : value) (keys : list string) :
  (forall members, quotes = JObj members -> members = []) ->
  quiet (for_each keys (process_symbol cfg float_of_str quotes)).
Proof.
  intros Hq. apply quiet_for_each. intros k w.
  assert (E : after (process_symbol cfg float_of_str quotes k) w = w).
  { unfold after. rewrite process_symbol_tick. unfold symbol_tick.
    destruct quotes as [| | | | | |members]; try done.
    by rewrite (Hq members eq_refl). }
  rewrite E. split; [done|]. exists []. by rewrite app_nil_r.
Qed.

(** X20. A cycle in which [fetch_quotes] does not come back with a
    non-empty JSON object (a failed connection, a rejected token, an
    undecodable or unsuccessful answer, a [data] member of another shape)
    evaluates no symbol: the level map is left as it was and no alert is
    sent. *)
Theorem cycle_without_quotes_is_quiet
    (cfg : config) (float_of_str : string -> option float) (w : world) :
  (forall members,
     (fetch_quotes cfg (joined_keys cfg) w).1 = Ok (JObj members) -> members = []) ->
  last_level_alert (after (poll_cycle cfg float_of_str) w) = last_level_alert w /\
  alerts (events_since w (after (poll_cycle cfg float_of_str) w)) = [].
Proof.
  intros Hq.
  assert (Hbody : last_level_alert (after (poll_body cfg float_of_str) w)
                  = last_level_alert w /\
                  exists evs, trace (after (poll_body cfg float_of_str) w) = trace w ++ evs /\
                              alerts evs = []).
  { unfold poll_body. rewrite after_try_except.
    set (body := (quotes ← fetch_quotes cfg (joined_keys cfg);
                  for_each (keys_list cfg) (process_symbol cfg float_of_str quotes))).
    assert (Hb : last_level_alert (body w).2 = last_level_alert w /\
                 exists evs, trace (body w).2 = trace w ++ evs /\ alerts evs = []).
    { unfold body, mbind, M_bind.
      destruct (quiet_fetch_quotes cfg (joined_keys cfg) w) as (Hl & evs & Ht & Ha).
      unfold after in Hl, Ht.
      destruct (fetch_quotes cfg (joined_keys cfg) w) as [[quotes|e] w1]; simpl in *.
      - assert (Hno : forall members, quotes = JObj members -> members = []).
        { intros members ->. by apply Hq. }
        destruct (quiet_symbols_without_batch cfg float_of_str quotes (keys_list cfg)
                    Hno w1) as (Hl2 & evs2 & Ht2 & Ha2).
        unfold after in Hl2, Ht2.
        split; [congruence|]. exists (evs ++ evs2).
        by rewrite Ht2, Ht, <- app_assoc, alerts_app, Ha, Ha2.
      - split; [done|]. by exists evs. }
    destruct Hb as (Hl & evs & Ht & Ha).
    destruct (body w) as [[[]|e] w2]; simpl in *.
    - split; [done|]. by exists evs.
    - split; [done|]. exists (evs ++ [Print (TxtLoopError e)]).
      rewrite Ht, <- app_assoc. split; [done|]. by rewrite alerts_app, Ha. }
  destruct Hbody as (Hl & evs & Ht & Ha).
  unfold after at 1 2. rewrite poll_cycle_is_body_then_sleep. simpl.
  split; [done|].
  rewrite (events_since_app w _ (evs ++ [Sleep])).
  - by rewrite alerts_app, Ha.
  - simpl. by rewrite Ht, <- app_assoc.
Qed.

Lemma cycle_without_quotes_is_quiet_witness :
  let w := {| last_level_alert := {["A"%string := 100]}; trace := [];
              upstox := [ConnectionFailed]; telegram := [true] |} in
  last_level_alert (after (poll_cycle Examples.cfg50 Examples.no_parser) w)
  = {["A"%string := 100]} /\
  alerts (events_since w (after (poll_cycle Examples.cfg50 Examples.no_parser) w)) = [].
Proof.
  intros w.
  apply (cycle_without_quotes_is_quiet Examples.cfg50 Examples.no_parser w).
  intros members H. vm_compute in H. by injection H as <-.
Defined.

(** X23. In a bot started with an empty level map, the map holds at every
    moment, for each symbol, the level of the latest alert sent for it,
    and no entry for a symbol never alerted. *)
Theorem tracker_holds_latest_alerts
    (cfg : config) (float_of_str : string -> option float) (n : nat) (w : world)
    (symbol : string) :
  last_level_alert w = ∅ -> trace w = [] ->
  last_level_alert (after (main_bot cfg float_of_str n) w) !! symbol
  = last_alert symbol (trace (after (main_bot cfg float_of_str n) w)).
Proof. intros Hl Ht. by apply main_bot_consistent. Qed.

Lemma tracker_holds_latest_alerts_witness :
  let quotes p := Examples.success (JObj [("A", JObj [("last_price", JInt p)])]%string) in
  let w := Examples.fresh [quotes 24; quotes 76; quotes 77] [true; true; true] in
  last_level_alert (after (main_bot Examples.cfg50 Examples.no_parser 3) w) !! "A"%string
  = last_alert "A" (trace (after (main_bot Examples.cfg50 Examples.no_parser 3) w)).
Proof.
  intros quotes w.
  apply (tracker_holds_latest_alerts Examples.cfg50 Examples.no_parser 3 w "A");
    reflexivity.
Defined.

(** ** The buy-side volume *)

Lemma sum_quantities_integers (entries : list value) (ns : list Z) (acc : Z) :
  Forall2 (fun x n => get x "quantity" (JInt 0) = Ok (JInt n)) entries ns ->
  sum_quantities (NInt acc) entries = Ok (NInt (acc + foldr Z.add 0 ns)).
Proof.
  intros H. revert acc. induction H as [|x n entries ns Hx _ IH]; intros acc; simpl.
  - by rewrite Z.add_0_r.
  - unfold mbind, res_bind. rewrite Hx. simpl. rewrite IH. by rewrite Z.add_assoc.
Qed.

(** X24. When the depth of a quote lists buy entries that are JSON objects
    whose [quantity] is an integer or missing, the buy-side volume is the
    sum of the quantities, a missing one counting as 0. *)
Theorem buy_qty_sums_quantities
    (q depth : value) (entries : list value) (ns : list Z) :
  get q "depth" (JObj []) = Ok depth ->
  get depth "buy" (JArr []) = Ok (JArr entries) ->
  Forall2 (fun x n => get x "quantity" (JInt 0) = Ok (JInt n)) entries ns ->
  quote_buy_qty q = Ok (NInt (foldr Z.add 0 ns)).
Proof.
  intros Hd Hb He. unfold quote_buy_qty, mbind, res_bind.
  rewrite Hd, Hb. simpl. by rewrite (sum_quantities_integers entries ns 0 He).
Qed.

Lemma buy_qty_sums_quantities_witness :
  let entries := [JObj [("quantity", JInt 5); ("price", JInt 99)];
                  JObj [("price", JInt 98)];
                  JObj [("quantity", JInt 7)]]%string in
  let depth := JObj [("sell", JArr []); ("buy", JArr entries)]%string in
  quote_buy_qty (JObj [("last_price", JInt 100); ("depth", depth)]%string) = Ok (NInt 12).
Proof.
  intros entries depth.
  apply (buy_qty_sums_quantities _ depth entries [5; 0; 7]); try reflexivity.
  repeat constructor.
Defined.

(** X25. The defaults of the depth lookups stand in for a missing member
    only. A quote without [depth], or whose depth has no [buy] member, has
    volume 0; a [depth] member that is present but not a JSON object
    ([null] included) raises [AttributeError], and a [buy] member that is
    [null], a boolean or a number raises [TypeError]. *)
Theorem depth_defaults_only_when_missing
    (members : list (string * value)) :
  (assoc "depth" members = None -> quote_buy_qty (JObj members) = Ok (NInt 0)) /\
  (forall d, assoc "depth" members = Some (JObj d) -> assoc "buy" d = None ->
     quote_buy_qty (JObj members) = Ok (NInt 0)) /\
  (forall depth, assoc "depth" members = Some depth ->
     (forall d, depth ≠ JObj d) ->
     quote_buy_qty (JObj members) = Raise AttributeError) /\
  (forall d buy_side, assoc "depth" members = Some (JObj d) ->
     assoc "buy" d = Some buy_side ->
     iterate buy_side = Raise TypeError ->
     quote_buy_qty (JObj members) = Raise TypeError).
Proof.
  unfold quote_buy_qty, mbind, res_bind, get. split_and!.
  - by intros ->.
  - intros d -> Hb. simpl. by rewrite Hb.
  - intros depth -> Hd. simpl. destruct depth as [| | | | | |d]; try done.
    by destruct (Hd d).
  - intros d buy_side -> Hb Hi. simpl. rewrite Hb. simpl. by rewrite Hi.
Qed.

Lemma depth_defaults_only_when_missing_witness :
  quote_buy_qty (JObj [("last_price", JInt 100)]%string) = Ok (NInt 0) /\
  quote_buy_qty (JObj [("depth", JObj [("sell", JArr [])])]%string) = Ok (NInt 0) /\
  quote_buy_qty (JObj [("depth", JNull)]%string) = Raise AttributeError /\
  quote_buy_qty (JObj [("depth", JObj [("buy", JNull)])]%string) = Raise TypeError.
Proof.
  split_and!.
  - by apply (depth_defaults_only_when_missing [("last_price", JInt 100)]%string).
  - by apply (depth_defaults_only_when_missing [("depth", JObj [("sell", JArr [])])]%string)
      with (d := [("sell", JArr [])]%string).
  - by apply (depth_defaults_only_when_missing [("depth", JNull)]%string)
      with (depth := JNull).
  - by apply (depth_defaults_only_when_missing [("depth", JObj [("buy", JNull)])]%string)
      with (d := [("buy", JNull)]%string) (buy_side := JNull).
Defined.



(** ** The configured symbols *)

Import Startup.

Lemma split_nonempty (sep : Ascii.ascii) (s : string) : split sep s ≠ [].
Proof.
  destruct s as [|c rest]; simpl; [done|].
  case_bool_decide; [done|]. by destruct (split sep rest).
Qed.

Lemma split_pieces_free (sep : Ascii.ascii) (s : string) :
  Forall (fun piece => sep ∉ chars_of piece) (split sep s).
Proof.
  induction s as [|c rest IH]; simpl.
  - repeat constructor. unfold chars_of. simpl. apply not_elem_of_nil.
  - case_bool_decide as Hc.
    + constructor; [|done]. unfold chars_of. simpl. apply not_elem_of_nil.
    + destruct (split sep rest) as [|piece pieces]; simpl.
      * repeat constructor. unfold chars_of. simpl.
        intros [?|H]%elem_of_cons; [done|]. by apply elem_of_nil in H.
      * apply Forall_cons in IH as [Hp Hps]. constructor; [|done].
        unfold chars_of in *. simpl. intros [?|H]%elem_of_cons; [done|]. by apply Hp.
Qed.

Lemma lstrip_chars (s : string) (c : Ascii.ascii) :
  c ∈ chars_of (lstrip s) -> c ∈ chars_of s.
Proof.
  unfold chars_of. induction s as [|c' rest IH]; simpl; [done|].
  destruct (isspace c'); [|done]. intros H. right. by apply IH.
Qed.

Lemma rstrip_chars (s : string) (c : Ascii.ascii) :
  c ∈ chars_of (rstrip s) -> c ∈ chars_of s.
Proof.
  unfold chars_of. induction s as [|c' rest IH]; simpl; [done|].
  destruct (rstrip rest) as [|c'' kept].
  - destruct (isspace c'); simpl.
    + by intros H%elem_of_nil.
    + intros [->|H%elem_of_nil]%elem_of_cons; [left|done].
  - simpl in *. intros [->|H]%elem_of_cons; [left|right; by apply IH].
Qed.

Lemma lstrip_idem (s : string) : lstrip (lstrip s) = lstrip s.
Proof.
  induction s as [|c rest IH]; simpl; [done|].
  destruct (isspace c) eqn:Hc; [done|]. simpl. by rewrite Hc.
Qed.

Lemma rstrip_idem (s : string) : rstrip (rstrip s) = rstrip s.
Proof.
  induction s as [|c rest IH]; simpl; [done|].
  destruct (rstrip rest) as [|c' kept] eqn:Hr.
  - destruct (isspace c) eqn:Hc; simpl; [done|]. by rewrite Hc.
  - simpl in *. by rewrite IH.
Qed.

(** A string that does not start with a space keeps its start when its end
    is stripped. *)
Lemma lstrip_rstrip (s : string) : lstrip s = s -> lstrip (rstrip s) = rstrip s.
Proof.
  destruct s as [|c rest]; simpl; [done|].
  destruct (isspace c) eqn:Hc.
  - intros H. exfalso.
    assert (Hlen : forall t, (String.length (lstrip t) <= String.length t)%nat).
    { induction t as [|c' t IH]; simpl; [lia|]. destruct (isspace c'); simpl; lia. }
    pose proof (Hlen rest) as Hl. rewrite H in Hl. simpl in Hl. lia.
  - intros _. destruct (rstrip rest); simpl; by rewrite Hc.
Qed.

Lemma strip_idem (s : string) : strip (strip s) = strip s.
Proof.
  unfold strip. rewrite (lstrip_rstrip (lstrip s)) by apply lstrip_idem.
  apply rstrip_idem.
Qed.

Lemma parse_keys_all_clean (instrument_keys : string) :
  Forall clean (parse_keys instrument_keys).
Proof.
  apply Forall_forall. intros k Hk. unfold parse_keys in Hk.
  apply list_elem_of_filter in Hk as [Hne Hk].
  apply list_elem_of_fmap in Hk as (piece & -> & Hp).
  split_and!; [done|apply strip_idem|].
  pose proof (split_pieces_free comma instrument_keys) as Hfree.
  rewrite Forall_forall in Hfree. intros Hc. apply (Hfree piece Hp).
  by apply lstrip_chars, rstrip_chars.
Qed.

(** X27. Every configured symbol is a non-empty piece of [INSTRUMENT_KEYS]
    between commas, without surrounding whitespace: it has no comma in it
    and stripping it again changes nothing. *)
Theorem parse_keys_clean (instrument_keys : string) :
  Forall clean (parse_keys instrument_keys).
Proof. apply parse_keys_all_clean. Qed.

Lemma split_without_sep (sep : Ascii.ascii) (s : string) :
  sep ∉ chars_of s -> split sep s = [s].
Proof.
  unfold chars_of. induction s as [|c rest IH]; simpl; [done|].
  intros Hc. apply not_elem_of_cons in Hc as [Hne Hrest].
  rewrite bool_decide_eq_false_2 by done. by rewrite (IH Hrest).
Qed.

Lemma split_append_sep (sep : Ascii.ascii) (a b : string) :
  sep ∉ chars_of a ->
  split sep (String.append a (String sep b)) = a :: split sep b.
Proof.
  unfold chars_of. induction a as [|c rest IH]; simpl.
  - intros _. by rewrite bool_decide_eq_true_2.
  - intros Hc. apply not_elem_of_cons in Hc as [Hne Hrest].
    rewrite bool_decide_eq_false_2 by done. by rewrite (IH Hrest).
Qed.

Lemma split_concat (keys : list string) :
  keys ≠ [] -> Forall (fun k => comma ∉ chars_of k) keys ->
  split comma (String.concat "," keys) = keys.
Proof.
  induction keys as [|k keys IH]; [done|]. intros _ [Hk Hks]%Forall_cons.
  destruct keys as [|k' keys]; simpl.
  - by apply split_without_sep.
  - change (String.append "," ?s) with (String comma s).
    rewrite split_append_sep by done. f_equal. by apply IH.
Qed.

(** X28. The symbols go to the Quote Source joined by commas, and the
    joined string reads back as the same list: parsing the join of clean
    keys returns them, so parsing [INSTRUMENT_KEYS], joining and parsing
    again changes nothing. *)
Theorem parse_keys_join_round_trip (keys : list string) (instrument_keys : string) :
  (Forall clean keys -> parse_keys (String.concat "," keys) = keys) /\
  parse_keys (String.concat "," (parse_keys instrument_keys)) = parse_keys instrument_keys.
Proof.
  assert (Hrt : forall ks, Forall clean ks -> parse_keys (String.concat "," ks) = ks).
  { intros ks Hks. destruct (decide (ks = [])) as [->|Hne]; [done|].
    unfold parse_keys. rewrite split_concat; [|done|].
    - induction Hks as [|k ks (Hk & Hs & _) _ IH]; [done|].
      rewrite fmap_cons, Hs, filter_cons_True by done.
      destruct (decide (ks = [])) as [->|Hne']; [done|]. by rewrite IH.
    - eapply Forall_impl; [done|]. by intros k (_ & _ & Hc). }
  split; [apply Hrt|]. apply Hrt, parse_keys_all_clean.
Qed.

Lemma parse_keys_join_round_trip_witness :
  let keys := ["NSE_INDEX|Nifty 50"; "NSE_INDEX|Nifty Bank"]%string in
  String.concat "," keys = "NSE_INDEX|Nifty 50,NSE_INDEX|Nifty Bank"%string /\
  parse_keys "NSE_INDEX|Nifty 50,NSE_INDEX|Nifty Bank" = keys /\
  parse_keys " NSE_INDEX|Nifty 50 ,, NSE_INDEX|Nifty Bank," = keys.
Proof.
  intros keys. split; [reflexivity|]. split; [|reflexivity].
  apply (parse_keys_join_round_trip keys EmptyString).
  repeat constructor; try done;
    unfold chars_of; simpl;
    (intros H; repeat (apply elem_of_cons in H as [H|H]; [discriminate H|]);
     by apply elem_of_nil in H).
Defined.
